(** * NaturalCapitalFhe: batch aggregation and asynchronous decryption

    A shallow embedding of the Solidity contract [NaturalCapitalFhe]
    (pragma ^0.8.24, shipped inside [src/frontend/web/src/App.tsx]) and the
    protocol properties of its batch ledger, asset store, aggregation loop and
    decryption callback.

    Modelling conventions.
    - [uint256], [address] and [bytes32] values are numbers in [N]; arithmetic
      that Solidity 0.8 checks ([+], [++]) reverts with [Panic] when the result
      leaves the 256-bit range.
    - A Solidity [mapping] is a finite map read through [mget], which returns
      the zero value of the value type for a key that was never written.
    - A function body is a computation in the monad [M]: it threads the storage
      and may revert.  A transaction ([execute]) commits the storage reached by
      a body that returns and keeps the storage it started from when the body
      reverts, as the EVM does.
    - The fhevm library is not part of the repository: its operations on
      ciphertext handles, its hash and its signature check are the fields of
      the class [FHEVM]; every theorem holds for every instance. *)

From stdpp Require Import base option numbers list strings gmap.

Local Open Scope N_scope.

(** ** Value types *)

Abbreviation address := N (only parsing).
Abbreviation uint256 := N (only parsing).
Abbreviation bytes32 := N (only parsing).
(** [type euint32 is bytes32]: a ciphertext handle. *)
Abbreviation euint32 := N (only parsing).
Abbreviation bytes := (list Byte.byte) (only parsing).

Definition UINT256_MAX : N := 2 ^ 256 - 1.

(** [mapping(K => V)] read: the stored value, or the zero value [d]. *)
Definition mget `{Countable K} {V} (d : V) (m : gmap K V) (k : K) : V :=
  default d (m !! k).

(** ** The external fhevm library *)

Class FHEVM := {
  (** [FHE.add] on two handles: the handle of the homomorphic sum. *)
  FHE_add : euint32 -> euint32 -> euint32;
  (** [FHE.checkSignatures(requestId, cleartexts, proof)]: [true] when the
      library accepts the proof, [false] when it reverts. *)
  FHE_checkSignatures : uint256 -> bytes -> bytes -> bool;
  (** [keccak256(abi.encode(cts, addr))]. *)
  keccak256_encode : list bytes32 -> address -> bytes32;
  (** [address(this)]. *)
  this : address
}.

(** [FHE.isInitialized(v)] is [euint32.unwrap(v) != 0]. *)
Definition FHE_isInitialized (v : euint32) : bool := negb (v =? 0).

(** [FHE.toBytes32(v)] unwraps the handle. *)
Definition FHE_toBytes32 (v : euint32) : bytes32 := v.

(** ** Storage layout *)

Record AssetData := mkAssetData {
  encryptedArea : euint32;
  encryptedHealthIndex : euint32;
  encryptedCarbonSequestration : euint32;
  encryptedBiodiversityIndex : euint32;
  ownerAddress : address
}.

Definition AssetData_zero : AssetData := mkAssetData 0 0 0 0 0.

Record DecryptionContext := mkDecryptionContext {
  batchId : uint256;
  stateHash : bytes32;
  processed : bool
}.

Definition DecryptionContext_zero : DecryptionContext :=
  mkDecryptionContext 0 0 false.

Inductive Event :=
| OwnershipTransferred (previousOwner newOwner : address)
| ProviderAdded (provider : address)
| ProviderRemoved (provider : address)
| Paused (account : address)
| Unpaused (account : address)
| CooldownSecondsChanged (oldCooldown newCooldown : uint256)
| BatchOpened (batch : uint256)
| BatchClosed (batch : uint256)
| AssetSubmitted (provider : address) (batch assetIndex : uint256)
| DecryptionRequested (requestId batch : uint256)
| DecryptionCompleted (requestId batch totalArea totalCarbonSequestration : uint256).

Inductive Error :=
| NotOwner
| NotProvider
| PausedError
| CooldownActive
| BatchClosedOrInvalid
| InvalidBatchId
| ReplayAttempt
| StateMismatch
| InvalidProof
(** [require(cond, msg)] that failed. *)
| RequireFailed (msg : string)
(** Checked arithmetic left the 256-bit range. *)
| Panic
(** [FHE.checkSignatures] reverted. *)
| SignaturesRejected
(** [abi.decode] reverted. *)
| AbiDecodeFailed.

Global Instance Error_eq_dec : EqDecision Error.
Proof. solve_decision. Defined.

Global Instance Event_eq_dec : EqDecision Event.
Proof. solve_decision. Defined.

Record State := mkState {
  owner : address;
  isProvider : gmap N bool;
  paused : bool;
  cooldownSeconds : uint256;
  lastSubmissionTime : gmap N N;
  lastDecryptionRequestTime : gmap N N;
  currentBatchId : uint256;
  isBatchOpen : gmap N bool;
  assetCountInBatch : gmap N N;
  batchAssets : gmap (N * N) AssetData;
  decryptionContexts : gmap N DecryptionContext;
  (** The library's request counter, kept in the contract's storage. *)
  counterRequest : uint256;
  (** The log of emitted events, oldest first. *)
  events : list Event
}.

(** Storage before the constructor runs: every slot is zero. *)
Definition State_zero : State :=
  mkState 0 ∅ false 0 ∅ ∅ 0 ∅ ∅ ∅ ∅ 0 [].

Definition set_owner (v : address) (s : State) : State :=
  mkState v (isProvider s) (paused s) (cooldownSeconds s) (lastSubmissionTime s)
    (lastDecryptionRequestTime s) (currentBatchId s) (isBatchOpen s)
    (assetCountInBatch s) (batchAssets s) (decryptionContexts s)
    (counterRequest s) (events s).

Definition set_isProvider (v : gmap N bool) (s : State) : State :=
  mkState (owner s) v (paused s) (cooldownSeconds s) (lastSubmissionTime s)
    (lastDecryptionRequestTime s) (currentBatchId s) (isBatchOpen s)
    (assetCountInBatch s) (batchAssets s) (decryptionContexts s)
    (counterRequest s) (events s).

Definition set_paused (v : bool) (s : State) : State :=
  mkState (owner s) (isProvider s) v (cooldownSeconds s) (lastSubmissionTime s)
    (lastDecryptionRequestTime s) (currentBatchId s) (isBatchOpen s)
    (assetCountInBatch s) (batchAssets s) (decryptionContexts s)
    (counterRequest s) (events s).

Definition set_cooldownSeconds (v : uint256) (s : State) : State :=
  mkState (owner s) (isProvider s) (paused s) v (lastSubmissionTime s)
    (lastDecryptionRequestTime s) (currentBatchId s) (isBatchOpen s)
    (assetCountInBatch s) (batchAssets s) (decryptionContexts s)
    (counterRequest s) (events s).

Definition set_lastSubmissionTime (v : gmap N N) (s : State) : State :=
  mkState (owner s) (isProvider s) (paused s) (cooldownSeconds s) v
    (lastDecryptionRequestTime s) (currentBatchId s) (isBatchOpen s)
    (assetCountInBatch s) (batchAssets s) (decryptionContexts s)
    (counterRequest s) (events s).

Definition set_lastDecryptionRequestTime (v : gmap N N) (s : State) : State :=
  mkState (owner s) (isProvider s) (paused s) (cooldownSeconds s)
    (lastSubmissionTime s) v (currentBatchId s) (isBatchOpen s)
    (assetCountInBatch s) (batchAssets s) (decryptionContexts s)
    (counterRequest s) (events s).

Definition set_currentBatchId (v : uint256) (s : State) : State :=
  mkState (owner s) (isProvider s) (paused s) (cooldownSeconds s)
    (lastSubmissionTime s) (lastDecryptionRequestTime s) v (isBatchOpen s)
    (assetCountInBatch s) (batchAssets s) (decryptionContexts s)
    (counterRequest s) (events s).

Definition set_isBatchOpen (v : gmap N bool) (s : State) : State :=
  mkState (owner s) (isProvider s) (paused s) (cooldownSeconds s)
    (lastSubmissionTime s) (lastDecryptionRequestTime s) (currentBatchId s) v
    (assetCountInBatch s) (batchAssets s) (decryptionContexts s)
    (counterRequest s) (events s).

Definition set_assetCountInBatch (v : gmap N N) (s : State) : State :=
  mkState (owner s) (isProvider s) (paused s) (cooldownSeconds s)
    (lastSubmissionTime s) (lastDecryptionRequestTime s) (currentBatchId s)
    (isBatchOpen s) v (batchAssets s) (decryptionContexts s)
    (counterRequest s) (events s).

Definition set_batchAssets (v : gmap (N * N) AssetData) (s : State) : State :=
  mkState (owner s) (isProvider s) (paused s) (cooldownSeconds s)
    (lastSubmissionTime s) (lastDecryptionRequestTime s) (currentBatchId s)
    (isBatchOpen s) (assetCountInBatch s) v (decryptionContexts s)
    (counterRequest s) (events s).

Definition set_decryptionContexts (v : gmap N DecryptionContext) (s : State) : State :=
  mkState (owner s) (isProvider s) (paused s) (cooldownSeconds s)
    (lastSubmissionTime s) (lastDecryptionRequestTime s) (currentBatchId s)
    (isBatchOpen s) (assetCountInBatch s) (batchAssets s) v
    (counterRequest s) (events s).

Definition set_counterRequest (v : uint256) (s : State) : State :=
  mkState (owner s) (isProvider s) (paused s) (cooldownSeconds s)
    (lastSubmissionTime s) (lastDecryptionRequestTime s) (currentBatchId s)
    (isBatchOpen s) (assetCountInBatch s) (batchAssets s) (decryptionContexts s)
    v (events s).

Definition set_events (v : list Event) (s : State) : State :=
  mkState (owner s) (isProvider s) (paused s) (cooldownSeconds s)
    (lastSubmissionTime s) (lastDecryptionRequestTime s) (currentBatchId s)
    (isBatchOpen s) (assetCountInBatch s) (batchAssets s) (decryptionContexts s)
    (counterRequest s) v.

(** [msg.sender] and [block.timestamp] of a call. *)
Record Env := mkEnv {
  msg_sender : address;
  block_timestamp : uint256
}.

(** ** The storage-and-revert monad *)

Definition M (A : Type) : Type := State -> Error + A * State.

Definition ret {A} (a : A) : M A := fun s => inr (a, s).

Definition bind {A B} (m : M A) (k : A -> M B) : M B :=
  fun s => match m s with
           | inl e => inl e
           | inr (a, s') => k a s'
           end.

Definition revert {A} (e : Error) : M A := fun _ => inl e.

Definition gets {A} (f : State -> A) : M A := fun s => inr (f s, s).

Definition modify (f : State -> State) : M unit := fun s => inr (tt, f s).

Definition emit (e : Event) : M unit :=
  modify (fun s => set_events (events s ++ [e]) s).

Notation "x <- m ;; k" := (bind m (fun x => k))
  (at level 100, m at next level, right associativity).
Notation "m ;;; k" := (bind m (fun _ => k))
  (at level 100, right associativity).

(** Checked [a + b] on [uint256]. *)
Definition checked_add (a b : uint256) : M uint256 :=
  if a + b <=? UINT256_MAX then ret (a + b) else revert Panic.

(** Checked [a++] on [uint256]. *)
Definition checked_incr (a : uint256) : M uint256 := checked_add a 1.

(** [require(cond, msg)]. *)
Definition require (cond : bool) (msg : string) : M unit :=
  if cond then ret tt else revert (RequireFailed msg).

(** ** [abi.decode(cleartexts, (uint32, uint32))] *)

(** A big-endian word. *)
Definition be_word (bs : bytes) : N :=
  foldl (fun acc b => acc * 256 + Byte.to_N b) 0 bs.

(** Two 32-byte head words, each a valid [uint32]; shorter data or a word with
    dirty upper bits reverts, trailing data is ignored. *)
Definition abi_decode_uint32_pair (data : bytes) : option (N * N) :=
  if (length data <? 64)%nat then None
  else
    let w0 := be_word (take 32 data) in
    let w1 := be_word (take 32 (drop 32 data)) in
    if (w0 <? 2 ^ 32) && (w1 <? 2 ^ 32) then Some (w0, w1) else None.

(** ** The loop shared by the request and the callback *)

(** The three locals of the aggregation loop. *)
Record Totals := mkTotals {
  totalEncryptedArea : euint32;
  totalEncryptedCarbonSequestration : euint32;
  initialized : bool
}.

(** Locals before the loop: two zero handles and [initialized = false]. *)
Definition Totals_zero : Totals := mkTotals 0 0 false.

(** The indices [0, 1, ..., n-1] visited by [for (i = 0; i < n; i++)]. *)
Definition loop_indices (n : uint256) : list uint256 :=
  N.of_nat <$> seq 0 (N.to_nat n).

Section Contract.
Context `{FHEVM}.

(** One iteration of the loop body for index [i] of batch [b]. *)
Definition aggregate_body (s : State) (b : uint256) (t : Totals) (i : uint256) : Totals :=
  let asset := mget AssetData_zero (batchAssets s) (b, i) in
  if negb (FHE_isInitialized (totalEncryptedArea t)) then
    mkTotals (encryptedArea asset) (encryptedCarbonSequestration asset) true
  else
    mkTotals (FHE_add (totalEncryptedArea t) (encryptedArea asset))
             (FHE_add (totalEncryptedCarbonSequestration t)
                      (encryptedCarbonSequestration asset))
             (initialized t).

(** [for (uint256 i = 0; i < assetCountInBatch[batchId]; i++) { ... }] *)
Definition aggregate_loop (s : State) (b : uint256) : Totals :=
  foldl (aggregate_body s b) Totals_zero
        (loop_indices (mget 0 (assetCountInBatch s) b)).

(** [_hashCiphertexts(cts)] *)
Definition _hashCiphertexts (cts : list bytes32) : bytes32 :=
  keccak256_encode cts this.

(** Modelled from the spec: [FHE.requestDecryption] of the fhevm library, which
    is not in the repository.  The spec has the oracle hand out a fresh request
    id for every request; the model is the library's per-contract counter: the
    id is the counter's value, and the counter is then incremented. *)
Definition FHE_requestDecryption (cts : list bytes32) : M uint256 :=
  requestId <- gets counterRequest ;;
  next <- checked_incr requestId ;;
  modify (set_counterRequest next) ;;;
  ret requestId.

(** ** Modifiers *)

Definition onlyOwner (env : Env) : M unit :=
  o <- gets owner ;;
  if negb (msg_sender env =? o) then revert NotOwner else ret tt.

Definition onlyProvider (env : Env) : M unit :=
  p <- gets (fun s => mget false (isProvider s) (msg_sender env)) ;;
  if negb p then revert NotProvider else ret tt.

Definition whenNotPaused : M unit :=
  p <- gets paused ;;
  if p then revert PausedError else ret tt.

Definition respectCooldown (env : Env) (_address : address)
    (_lastTime : State -> gmap N N) : M unit :=
  last <- gets (fun s => mget 0 (_lastTime s) _address) ;;
  cd <- gets cooldownSeconds ;;
  limit <- checked_add last cd ;;
  if block_timestamp env <? limit then revert CooldownActive else ret tt.

(** ** Constructor and functions *)

Definition constructor (env : Env) : M unit :=
  modify (set_owner (msg_sender env)) ;;;
  emit (OwnershipTransferred 0 (msg_sender env)) ;;;
  modify (set_currentBatchId 1) ;;;
  cur <- gets currentBatchId ;;
  modify (fun s => set_isBatchOpen (<[cur := true]> (isBatchOpen s)) s) ;;;
  emit (BatchOpened cur) ;;;
  modify (set_cooldownSeconds 60).

Definition transferOwnership (env : Env) (newOwner : address) : M unit :=
  onlyOwner env ;;;
  o <- gets owner ;;
  emit (OwnershipTransferred o newOwner) ;;;
  modify (set_owner newOwner).

Definition addProvider (env : Env) (provider : address) : M unit :=
  onlyOwner env ;;;
  modify (fun s => set_isProvider (<[provider := true]> (isProvider s)) s) ;;;
  emit (ProviderAdded provider).

Definition removeProvider (env : Env) (provider : address) : M unit :=
  onlyOwner env ;;;
  modify (fun s => set_isProvider (<[provider := false]> (isProvider s)) s) ;;;
  emit (ProviderRemoved provider).

Definition setPaused (env : Env) (_paused : bool) : M unit :=
  onlyOwner env ;;;
  if _paused then
    modify (set_paused true) ;;;
    emit (Paused (msg_sender env))
  else
    modify (set_paused false) ;;;
    emit (Unpaused (msg_sender env)).

Definition setCooldownSeconds (env : Env) (newCooldownSeconds : uint256) : M unit :=
  onlyOwner env ;;;
  require (0 <? newCooldownSeconds) "Cooldown must be positive" ;;;
  oldCooldown <- gets cooldownSeconds ;;
  modify (set_cooldownSeconds newCooldownSeconds) ;;;
  emit (CooldownSecondsChanged oldCooldown newCooldownSeconds).

Definition openNewBatch (env : Env) : M unit :=
  onlyOwner env ;;;
  whenNotPaused ;;;
  cur <- gets currentBatchId ;;
  next <- checked_incr cur ;;
  modify (set_currentBatchId next) ;;;
  modify (fun s => set_isBatchOpen (<[currentBatchId s := true]> (isBatchOpen s)) s) ;;;
  cur' <- gets currentBatchId ;;
  emit (BatchOpened cur').

Definition closeBatch (env : Env) (b : uint256) : M unit :=
  onlyOwner env ;;;
  open <- gets (fun s => mget false (isBatchOpen s) b) ;;
  (if negb open then revert BatchClosedOrInvalid else ret tt) ;;;
  modify (fun s => set_isBatchOpen (<[b := false]> (isBatchOpen s)) s) ;;;
  emit (BatchClosed b).

Definition submitAsset (env : Env)
    (encArea encHealth encCarbon encBio : euint32) : M unit :=
  onlyProvider env ;;;
  whenNotPaused ;;;
  respectCooldown env (msg_sender env) lastSubmissionTime ;;;
  cur <- gets currentBatchId ;;
  open <- gets (fun s => mget false (isBatchOpen s) cur) ;;
  (if negb open then revert BatchClosedOrInvalid else ret tt) ;;;
  assetIndex <- gets (fun s => mget 0 (assetCountInBatch s) cur) ;;
  modify (fun s => set_batchAssets
    (<[(cur, assetIndex) :=
         mkAssetData encArea encHealth encCarbon encBio (msg_sender env)]>
       (batchAssets s)) s) ;;;
  count <- gets (fun s => mget 0 (assetCountInBatch s) cur) ;;
  count' <- checked_incr count ;;
  modify (fun s => set_assetCountInBatch (<[cur := count']> (assetCountInBatch s)) s) ;;;
  modify (fun s => set_lastSubmissionTime
    (<[msg_sender env := block_timestamp env]> (lastSubmissionTime s)) s) ;;;
  emit (AssetSubmitted (msg_sender env) cur assetIndex).

Definition requestBatchSummaryDecryption (env : Env) (b : uint256) : M unit :=
  whenNotPaused ;;;
  respectCooldown env (msg_sender env) lastDecryptionRequestTime ;;;
  count <- gets (fun s => mget 0 (assetCountInBatch s) b) ;;
  (if count =? 0 then revert InvalidBatchId else ret tt) ;;;
  t <- gets (fun s => aggregate_loop s b) ;;
  (if negb (initialized t) then revert InvalidBatchId else ret tt) ;;;
  let cts := [FHE_toBytes32 (totalEncryptedArea t);
              FHE_toBytes32 (totalEncryptedCarbonSequestration t)] in
  let h := _hashCiphertexts cts in
  requestId <- FHE_requestDecryption cts ;;
  modify (fun s => set_decryptionContexts
    (<[requestId := mkDecryptionContext b h false]> (decryptionContexts s)) s) ;;;
  modify (fun s => set_lastDecryptionRequestTime
    (<[msg_sender env := block_timestamp env]> (lastDecryptionRequestTime s)) s) ;;;
  emit (DecryptionRequested requestId b).

Definition myCallback (env : Env) (requestId : uint256)
    (cleartexts proof : bytes) : M unit :=
  ctx <- gets (fun s => mget DecryptionContext_zero (decryptionContexts s) requestId) ;;
  (if processed ctx then revert ReplayAttempt else ret tt) ;;;
  let b := batchId ctx in
  t <- gets (fun s => aggregate_loop s b) ;;
  (if negb (initialized t) then revert InvalidBatchId else ret tt) ;;;
  let currentCts := [FHE_toBytes32 (totalEncryptedArea t);
                     FHE_toBytes32 (totalEncryptedCarbonSequestration t)] in
  let currentHash := _hashCiphertexts currentCts in
  (if negb (currentHash =? stateHash ctx) then revert StateMismatch else ret tt) ;;;
  (if FHE_checkSignatures requestId cleartexts proof then ret tt
   else revert SignaturesRejected) ;;;
  match abi_decode_uint32_pair cleartexts with
  | None => revert AbiDecodeFailed
  | Some (totalAreaCleartext, totalCarbonCleartext) =>
      modify (fun s => set_decryptionContexts
        (<[requestId := mkDecryptionContext (batchId ctx) (stateHash ctx) true]>
           (decryptionContexts s)) s) ;;;
      emit (DecryptionCompleted requestId b totalAreaCleartext totalCarbonCleartext)
  end.

(** ** Transactions *)

Inductive Call :=
| TransferOwnership (newOwner : address)
| AddProvider (provider : address)
| RemoveProvider (provider : address)
| SetPaused (_paused : bool)
| SetCooldownSeconds (newCooldownSeconds : uint256)
| OpenNewBatch
| CloseBatch (b : uint256)
| SubmitAsset (encArea encHealth encCarbon encBio : euint32)
| RequestBatchSummaryDecryption (b : uint256)
| MyCallback (requestId : uint256) (cleartexts proof : bytes).

Definition dispatch (env : Env) (c : Call) : M unit :=
  match c with
  | TransferOwnership a => transferOwnership env a
  | AddProvider p => addProvider env p
  | RemoveProvider p => removeProvider env p
  | SetPaused b => setPaused env b
  | SetCooldownSeconds n => setCooldownSeconds env n
  | OpenNewBatch => openNewBatch env
  | CloseBatch b => closeBatch env b
  | SubmitAsset a h c b => submitAsset env a h c b
  | RequestBatchSummaryDecryption b => requestBatchSummaryDecryption env b
  | MyCallback r c p => myCallback env r c p
  end.

(** The outcome of a body as the caller sees it. *)
Definition outcome (m : M unit) (s : State) : option Error :=
  match m s with inl e => Some e | inr _ => None end.

(** The storage after a transaction: committed on return, rolled back on
    revert. *)
Definition commit (m : M unit) (s : State) : State :=
  match m s with inl _ => s | inr (_, s') => s' end.

Definition execute (env : Env) (c : Call) (s : State) : State :=
  commit (dispatch env c) s.

(** Deployment by [deployer]: the constructor on zeroed storage. *)
Definition deploy (deployer : address) : State :=
  commit (constructor (mkEnv deployer 0)) State_zero.

(** A run: calls with their environments, executed left to right. *)
Definition run (cs : list (Env * Call)) (s : State) : State :=
  foldl (fun s ec => execute ec.1 ec.2 s) s cs.

Inductive reachable : State -> Prop :=
| reachable_deploy deployer : reachable (deploy deployer)
| reachable_step s env c : reachable s -> reachable (execute env c s).

End Contract.

(** ** Reading the storage *)

Abbreviation context_of s requestId :=
  (mget DecryptionContext_zero (decryptionContexts s) requestId).
Abbreviation count_of s b := (mget 0 (assetCountInBatch s) b).
Abbreviation open_of s b := (mget false (isBatchOpen s) b).
Abbreviation asset_of s b i := (mget AssetData_zero (batchAssets s) (b, i)).

(** The two ciphertext handles an aggregation hands to the oracle. *)
Definition handles (t : Totals) : list bytes32 :=
  [FHE_toBytes32 (totalEncryptedArea t);
   FHE_toBytes32 (totalEncryptedCarbonSequestration t)].

(** The records of batch [b] in index order, [0 .. assetCount-1]. *)
Definition batch_records (s : State) (b : uint256) : list AssetData :=
  (fun i => asset_of s b i) <$> loop_indices (count_of s b).

(** How many [DecryptionCompleted] events the log holds for a request id. *)
Definition is_completed (requestId : uint256) (e : Event) : bool :=
  match e with
  | DecryptionCompleted r _ _ _ => r =? requestId
  | _ => false
  end.

Definition completed_count (requestId : uint256) (log : list Event) : nat :=
  length (List.filter (is_completed requestId) log).

(** Whether a call is the callback for a given request id. *)
Definition is_callback_for (requestId : uint256) (c : Call) : bool :=
  match c with
  | MyCallback r _ _ => r =? requestId
  | _ => false
  end.

(** Whether a call closes a given batch. *)
Definition is_close_of (b : uint256) (c : Call) : bool :=
  match c with
  | CloseBatch b' => b' =? b
  | _ => false
  end.

(** Whether a call carries the [onlyOwner] modifier. *)
Definition is_owner_only (c : Call) : bool :=
  match c with
  | TransferOwnership _ | AddProvider _ | RemoveProvider _ | SetPaused _
  | SetCooldownSeconds _ | OpenNewBatch | CloseBatch _ => true
  | SubmitAsset _ _ _ _ | RequestBatchSummaryDecryption _ | MyCallback _ _ _ => false
  end.

(** The counters that only checked increments write stay 256-bit values. *)
Definition counters_in_range (s : State) : Prop :=
  currentBatchId s <= UINT256_MAX /\
  counterRequest s <= UINT256_MAX /\
  forall b, count_of s b <= UINT256_MAX.

(** Every completed event of the log belongs to a processed context for the
    batch it names, and its two totals are [uint32] values. *)
Definition completed_events_sound (s : State) : Prop :=
  forall r b totalArea totalCarbon,
    DecryptionCompleted r b totalArea totalCarbon ∈ events s ->
    processed (context_of s r) = true /\
    batchId (context_of s r) = b /\
    totalArea < 2 ^ 32 /\ totalCarbon < 2 ^ 32.


(** ** Aggregation as the specification words it *)

Section SeededFold.
Context `{FHEVM}.

(** The loop body as a function of the record it reads. *)
Definition record_step (t : Totals) (a : AssetData) : Totals :=
  if negb (FHE_isInitialized (totalEncryptedArea t)) then
    mkTotals (encryptedArea a) (encryptedCarbonSequestration a) true
  else
    mkTotals (FHE_add (totalEncryptedArea t) (encryptedArea a))
             (FHE_add (totalEncryptedCarbonSequestration t)
                      (encryptedCarbonSequestration a))
             (initialized t).



End SeededFold.

(** ** Invariants of the reachable states *)

(** Batch ids start at 1, and only ids up to the current one were ever opened
    or hold assets. *)
Definition batches_in_range (s : State) : Prop :=
  1 <= currentBatchId s /\
  forall b, open_of s b = true \/ count_of s b <> 0 -> 1 <= b <= currentBatchId s.

(** The records of a batch sit at the indices below its asset count, and
    nowhere else. *)
Definition indices_dense (s : State) : Prop :=
  forall b i, is_Some (batchAssets s !! (b, i)) <-> i < count_of s b.

(** A stored context belongs to an id the oracle already issued. *)
Definition contexts_issued (s : State) : Prop :=
  forall r, is_Some (decryptionContexts s !! r) -> r < counterRequest s.

(** Each request id has one completed event in the log when its context is
    processed, and none otherwise. *)
Definition completed_once (s : State) : Prop :=
  forall r, completed_count r (events s) =
            if processed (context_of s r) then 1%nat else 0%nat.

Definition invariant (s : State) : Prop :=
  batches_in_range s /\ indices_dense s /\ contexts_issued s /\ completed_once s.

(** ** A concrete deployment

    An instance of the library and a few calls, used to run the model: handles
    of sums and hashes are injective encodings, so a sum never has the handle
    of one of its operands and distinct handle lists never share a hash. *)

Module Scenario.

#[local] Instance fhevm : FHEVM := {|
  FHE_add x y := Npos (encode (x, y));
  FHE_checkSignatures _ _ proof := match proof with [] => false | _ => true end;
  keccak256_encode cts a := Npos (encode (cts, a));
  this := 4096
|}.

Definition deployer : address := 1.
Definition provider : address := 2.
Definition requester : address := 3.

(** [abi.encode(uint32(10), uint32(3))]. *)
Definition cleartexts_10_3 : bytes :=
  replicate 31 Byte.x00 ++ [Byte.x0a] ++ replicate 31 Byte.x00 ++ [Byte.x03].

Definition valid_proof : bytes := [Byte.x01].

(** The owner registers a provider. *)
Definition s_provider : State :=
  execute (mkEnv deployer 10) (AddProvider provider) (deploy deployer).

(** The provider submits one asset into batch 1. *)
Definition s_one_asset : State :=
  execute (mkEnv provider 100) (SubmitAsset 1001 1002 1003 1004) s_provider.

(** Anyone requests the decryption of batch 1; the oracle issues id 0. *)
Definition s_requested : State :=
  execute (mkEnv requester 200) (RequestBatchSummaryDecryption 1) s_one_asset.


(** The oracle answers request 0 while batch 1 is unchanged. *)
Definition s_completed : State :=
  execute (mkEnv requester 400) (MyCallback 0 cleartexts_10_3 valid_proof) s_requested.

(** The owner pauses the freshly deployed contract. *)
Definition s_paused : State :=
  execute (mkEnv deployer 20) (SetPaused true) s_provider.

(** The owner opens batch 2 while batch 1 is still open. *)
Definition s_two_open : State :=
  execute (mkEnv deployer 500) OpenNewBatch s_one_asset.

(** The owner closes batch 1. *)
Definition s_closed : State :=
  execute (mkEnv deployer 600) (CloseBatch 1) s_one_asset.


End Scenario.

(** * Proofs *)

(** ** Mappings *)

Lemma mget_insert `{Countable K} {V} (d : V) (m : gmap K V) (k k' : K) (v : V) :
  mget d (<[k := v]> m) k' = if decide (k = k') then v else mget d m k'.
Proof. unfold mget. rewrite lookup_insert. by case_decide. Qed.

Lemma mget_insert_eq `{Countable K} {V} (d : V) (m : gmap K V) (k : K) (v : V) :
  mget d (<[k := v]> m) k = v.
Proof. rewrite mget_insert. by case_decide. Qed.

Lemma mget_insert_ne `{Countable K} {V} (d : V) (m : gmap K V) (k k' : K) (v : V) :
  k <> k' -> mget d (<[k := v]> m) k' = mget d m k'.
Proof. intros. rewrite mget_insert. by case_decide. Qed.

Lemma mget_None `{Countable K} {V} (d : V) (m : gmap K V) (k : K) :
  m !! k = None -> mget d m k = d.
Proof. unfold mget. by intros ->. Qed.

Lemma mget_Some `{Countable K} {V} (d : V) (m : gmap K V) (k : K) (v : V) :
  m !! k = Some v -> mget d m k = v.
Proof. unfold mget. by intros ->. Qed.

(** ** Proof steps shared by the lemmas on calls *)

(** Open a call down to the storage it reads and writes. *)
Ltac open_call :=
  unfold execute, commit, outcome, dispatch, deploy, constructor,
    transferOwnership, addProvider, removeProvider, setPaused,
    setCooldownSeconds, openNewBatch, closeBatch, submitAsset,
    requestBatchSummaryDecryption, myCallback, FHE_requestDecryption,
    onlyOwner, onlyProvider, whenNotPaused, respectCooldown, require,
    checked_incr, checked_add, emit, bind, ret, revert, gets, modify in *.

(** Turn the boolean tests met on the way into propositions. *)
Ltac tests :=
  repeat match goal with
  | H : negb _ = true |- _ => apply negb_true_iff in H
  | H : negb _ = false |- _ => apply negb_false_iff in H
  | H : (_ =? _) = true |- _ => apply N.eqb_eq in H
  | H : (_ =? _) = false |- _ => apply N.eqb_neq in H
  | H : (_ <? _) = true |- _ => apply N.ltb_lt in H
  | H : (_ <? _) = false |- _ => apply N.ltb_ge in H
  | H : (_ <=? _) = true |- _ => apply N.leb_le in H
  | H : (_ <=? _) = false |- _ => apply N.leb_gt in H
  end.

(** Every path through a call, each with its tests as hypotheses. *)
Ltac paths := open_call; cbn; repeat case_match; simplify_eq/=; tests.

(** Compare two case analyses of the same tests. *)
Ltac settle :=
  repeat case_match; simplify_eq/=; try done; tests; try congruence; try lia.

Lemma UINT256_MAX_pos : 0 < UINT256_MAX.
Proof. reflexivity. Qed.

(** ** The loop *)

Lemma loop_indices_0 : loop_indices 0 = [].
Proof. reflexivity. Qed.

Lemma loop_indices_succ n : loop_indices (N.succ n) = loop_indices n ++ [n].
Proof.
  unfold loop_indices. rewrite N2Nat.inj_succ, seq_S, fmap_app. simpl.
  by rewrite N2Nat.id.
Qed.

Lemma loop_indices_nil n : loop_indices n = [] <-> n = 0.
Proof.
  split; [|by intros ->].
  destruct n as [|p] using N.peano_ind; [done|].
  rewrite loop_indices_succ. by intros ?%app_eq_nil%proj2.
Qed.

Lemma loop_indices_elem n i : i ∈ loop_indices n <-> i < n.
Proof.
  unfold loop_indices. rewrite list_elem_of_fmap. split.
  - intros (k & -> & Hk%elem_of_seq). lia.
  - intros Hi. exists (N.to_nat i). split; [by rewrite N2Nat.id|].
    apply elem_of_seq. lia.
Qed.

Section Loop.
Context `{FHEVM}.

Lemma aggregate_loop_records s b :
  aggregate_loop s b = foldl record_step Totals_zero (batch_records s b).
Proof.
  unfold aggregate_loop, batch_records.
  generalize Totals_zero. induction (loop_indices _) as [|i l IH]; [done|].
  intros t. simpl. by rewrite IH.
Qed.

Lemma record_step_initialized t a : initialized (record_step t a) = true
  \/ initialized (record_step t a) = initialized t.
Proof. unfold record_step. case_match; auto. Qed.

Lemma foldl_record_step_initialized l t :
  initialized t = true -> initialized (foldl record_step t l) = true.
Proof.
  revert t. induction l as [|a l IH]; [done|]. intros t Ht. simpl.
  apply IH. unfold record_step. by case_match.
Qed.

(** The flag is raised by the first iteration and never lowered. *)
Lemma aggregate_loop_initialized s b :
  initialized (aggregate_loop s b) = negb (count_of s b =? 0).
Proof.
  rewrite aggregate_loop_records. unfold batch_records.
  destruct (loop_indices (count_of s b)) as [|i l] eqn:Hl.
  - apply loop_indices_nil in Hl. by rewrite Hl.
  - assert (count_of s b <> 0) as Hn by (rewrite <- loop_indices_nil, Hl; done).
    apply N.eqb_neq in Hn. rewrite Hn. simpl.
    apply foldl_record_step_initialized. reflexivity.
Qed.

(** Two storages with the same count and the same records for a batch
    aggregate alike. *)
Lemma aggregate_loop_ext s s' b :
  count_of s b = count_of s' b ->
  (forall i, i < count_of s b -> asset_of s b i = asset_of s' b i) ->
  aggregate_loop s b = aggregate_loop s' b.
Proof.
  intros Hc Ha. rewrite !aggregate_loop_records. f_equal.
  unfold batch_records. rewrite <- Hc.
  apply list_fmap_ext. intros k i Hi. apply Ha, loop_indices_elem.
  by eapply list_elem_of_lookup_2.
Qed.

End Loop.

(** ** The invariants hold in every reachable state *)

Section Invariants.
Context `{FHEVM}.

Lemma batches_in_range_deploy d : batches_in_range (deploy d).
Proof.
  split; [done|]. intros b. paths. rewrite mget_insert.
  case_decide; [lia|]. intros [?|?]; done.
Qed.

Lemma batches_in_range_step s env c :
  batches_in_range s -> batches_in_range (execute env c s).
Proof.
  intros [Hcur Hin]. destruct c; paths; try (by split).
  all: split; cbn; [lia|]; intros b'; rewrite ?mget_insert;
    repeat case_decide; subst; intros Hb;
    try (specialize (Hin _ Hb)); try lia.
  apply Hin. by left.
Qed.

Lemma indices_dense_deploy d : indices_dense (deploy d).
Proof.
  intros b i. paths. rewrite lookup_empty. split; [by intros []|].
  unfold mget. rewrite lookup_empty. simpl. lia.
Qed.

Lemma indices_dense_step s env c :
  indices_dense s -> indices_dense (execute env c s).
Proof.
  intros Hd. destruct c; paths; try done.
  intros b i. cbn. rewrite lookup_insert, mget_insert.
  repeat case_decide; simplify_eq; rewrite ?(Hd _ _); try lia.
  - split; [lia|by eauto].
  - assert (i <> count_of s3 (currentBatchId s3)) by congruence. lia.
Qed.

Lemma contexts_issued_deploy d : contexts_issued (deploy d).
Proof. intros r. paths. rewrite lookup_empty. by intros []. Qed.

(** The request counter never decreases. *)
Lemma counterRequest_step s env c :
  counterRequest s <= counterRequest (execute env c s).
Proof. destruct c; paths; lia. Qed.

(** A callback that returns found a stored context for its request id: the
    zero context targets batch 0, which holds no asset. *)
Lemma myCallback_needs_context s env r cleartexts proof :
  batches_in_range s ->
  outcome (myCallback env r cleartexts proof) s = None ->
  is_Some (decryptionContexts s !! r).
Proof.
  intros [_ Hin] Hok.
  destruct (decryptionContexts s !! r) as [ctx|] eqn:Hr; [by eauto|].
  exfalso. revert Hok. open_call. rewrite (mget_None _ _ _ Hr). cbn.
  rewrite aggregate_loop_initialized.
  destruct (count_of s 0 =? 0) eqn:Hc; [done|]. tests.
  assert (1 <= 0 <= currentBatchId s) by (apply Hin; by right). lia.
Qed.

Lemma contexts_issued_step s env c :
  batches_in_range s -> contexts_issued s -> contexts_issued (execute env c s).
Proof.
  intros Hb Hi.
  pose proof (counterRequest_step s env c) as Hmono.
  destruct c as [| | | | | | | | b|r ct pf].
  1-8: paths; done.
  - revert Hmono. paths; intros Hmono; try done.
    intros r. cbn. rewrite lookup_insert. case_decide; subst.
    + intros _. lia.
    + intros ?%Hi. lia.
  - destruct (outcome (myCallback env r ct pf) s) as [e|] eqn:Hout.
    + unfold execute, commit, dispatch. unfold outcome in Hout.
      by destruct (myCallback env r ct pf s) as [?|[[] ?]].
    + pose proof (myCallback_needs_context _ _ _ _ _ Hb Hout) as Hr.
      apply Hi in Hr. clear Hout. revert Hmono. paths; intros Hmono; try done.
      intros r'. cbn. rewrite lookup_insert. case_decide; subst; [done|].
      apply Hi.
Qed.

#[local] Arguments completed_count : simpl never.

Lemma completed_count_snoc r log e :
  completed_count r (log ++ [e]) =
  (completed_count r log + if is_completed r e then 1 else 0)%nat.
Proof.
  unfold completed_count. rewrite List.filter_app, length_app. simpl.
  by destruct (is_completed r e).
Qed.

Lemma completed_once_deploy d : completed_once (deploy d).
Proof. intros r. by paths. Qed.

Lemma completed_once_step s env c :
  contexts_issued s -> completed_once s -> completed_once (execute env c s).
Proof.
  intros Hi Hc. destruct c; paths; try done.
  all: intros r'; cbn; rewrite completed_count_snoc, (Hc r'); cbn;
    rewrite ?mget_insert; repeat case_decide; subst; cbn;
    rewrite ?N.eqb_refl; try lia.
  - destruct (decryptionContexts s5 !! counterRequest s5) as [ctx|] eqn:Hr.
    + assert (counterRequest s5 < counterRequest s5); [|lia].
      apply Hi. by rewrite Hr.
    + by rewrite (mget_None _ _ _ Hr).
  - by match goal with Hp : processed _ = false |- _ => rewrite Hp end.
  - match goal with Hne : _ <> r' |- _ => apply N.eqb_neq in Hne; rewrite Hne end.
    lia.
Qed.

Lemma invariant_deploy d : invariant (deploy d).
Proof.
  split; [|split; [|split]].
  - apply batches_in_range_deploy.
  - apply indices_dense_deploy.
  - apply contexts_issued_deploy.
  - apply completed_once_deploy.
Qed.

Lemma invariant_step s env c : invariant s -> invariant (execute env c s).
Proof.
  intros (Hb & Hd & Hi & Hc). split; [|split; [|split]].
  - by apply batches_in_range_step.
  - by apply indices_dense_step.
  - by apply contexts_issued_step.
  - by apply completed_once_step.
Qed.

Lemma reachable_invariant s : reachable s -> invariant s.
Proof.
  induction 1 as [d|s env c _ IH]; [apply invariant_deploy|by apply invariant_step].
Qed.

Lemma reachable_run cs s : reachable s -> reachable (run cs s).
Proof.
  revert s. induction cs as [|[env c] cs IH]; [done|].
  intros s Hs. apply IH. by constructor.
Qed.

Lemma run_app cs1 cs2 s : run (cs1 ++ cs2) s = run cs2 (run cs1 s).
Proof. unfold run. apply foldl_app. Qed.

(** A reverted call leaves the storage as it was. *)
Lemma execute_reverted s env c e :
  outcome (dispatch env c) s = Some e -> execute env c s = s.
Proof.
  unfold execute, commit, outcome. by destruct (dispatch env c s) as [?|[[] ?]].
Qed.

End Invariants.

(** ** What each entry point returns *)

Section Outcomes.
Context `{FHEVM}.

Lemma outcome_commit m s :
  match outcome m s with Some _ => commit m s = s | None => True end.
Proof. unfold outcome, commit. by destruct (m s) as [?|[[] ?]]. Qed.

Lemma submitAsset_outcome s env a h c bio :
  let sender := msg_sender env in
  let last := mget 0 (lastSubmissionTime s) sender in
  let cur := currentBatchId s in
  outcome (submitAsset env a h c bio) s =
    if negb (mget false (isProvider s) sender) then Some NotProvider
    else if paused s then Some PausedError
    else if negb (last + cooldownSeconds s <=? UINT256_MAX) then Some Panic
    else if block_timestamp env <? last + cooldownSeconds s then Some CooldownActive
    else if negb (open_of s cur) then Some BatchClosedOrInvalid
    else if negb (count_of s cur + 1 <=? UINT256_MAX) then Some Panic
    else None.
Proof. open_call. cbn. settle. Qed.

Lemma submitAsset_commit s env a h c bio :
  outcome (submitAsset env a h c bio) s = None ->
  let cur := currentBatchId s in
  let i := count_of s cur in
  commit (submitAsset env a h c bio) s =
    set_events (events s ++ [AssetSubmitted (msg_sender env) cur i])
      (set_lastSubmissionTime
         (<[msg_sender env := block_timestamp env]> (lastSubmissionTime s))
         (set_assetCountInBatch (<[cur := i + 1]> (assetCountInBatch s))
            (set_batchAssets
               (<[(cur, i) := mkAssetData a h c bio (msg_sender env)]>
                  (batchAssets s)) s))).
Proof. open_call. cbn. settle. Qed.

Lemma requestBatchSummaryDecryption_outcome s env b :
  let sender := msg_sender env in
  let last := mget 0 (lastDecryptionRequestTime s) sender in
  outcome (requestBatchSummaryDecryption env b) s =
    if paused s then Some PausedError
    else if negb (last + cooldownSeconds s <=? UINT256_MAX) then Some Panic
    else if block_timestamp env <? last + cooldownSeconds s then Some CooldownActive
    else if count_of s b =? 0 then Some InvalidBatchId
    else if negb (counterRequest s + 1 <=? UINT256_MAX) then Some Panic
    else None.
Proof.
  open_call. cbn. repeat case_match; simplify_eq/=; try done.
  all: repeat match goal with
    | Hi : context [initialized (aggregate_loop _ _)] |- _ =>
        rewrite aggregate_loop_initialized in Hi
    end; settle.
Qed.

Lemma requestBatchSummaryDecryption_commit s env b :
  outcome (requestBatchSummaryDecryption env b) s = None ->
  let r := counterRequest s in
  commit (requestBatchSummaryDecryption env b) s =
    set_events (events s ++ [DecryptionRequested r b])
      (set_lastDecryptionRequestTime
         (<[msg_sender env := block_timestamp env]> (lastDecryptionRequestTime s))
         (set_decryptionContexts
            (<[r := mkDecryptionContext b
                      (_hashCiphertexts (handles (aggregate_loop s b))) false]>
               (decryptionContexts s))
            (set_counterRequest (r + 1) s))).
Proof. open_call. cbn. settle. Qed.

Lemma openNewBatch_outcome s env :
  outcome (openNewBatch env) s =
    if negb (msg_sender env =? owner s) then Some NotOwner
    else if paused s then Some PausedError
    else if negb (currentBatchId s + 1 <=? UINT256_MAX) then Some Panic
    else None.
Proof. open_call. cbn. settle. Qed.

Lemma closeBatch_outcome s env b :
  outcome (closeBatch env b) s =
    if negb (msg_sender env =? owner s) then Some NotOwner
    else if negb (open_of s b) then Some BatchClosedOrInvalid
    else None.
Proof. open_call. cbn. settle. Qed.

Lemma myCallback_outcome s env r cleartexts proof :
  let ctx := context_of s r in
  let t := aggregate_loop s (batchId ctx) in
  outcome (myCallback env r cleartexts proof) s =
    if processed ctx then Some ReplayAttempt
    else if negb (initialized t) then Some InvalidBatchId
    else if negb (_hashCiphertexts (handles t) =? stateHash ctx) then Some StateMismatch
    else if negb (FHE_checkSignatures r cleartexts proof) then Some SignaturesRejected
    else if abi_decode_uint32_pair cleartexts is None then Some AbiDecodeFailed
    else None.
Proof.
  open_call. unfold handles. cbn. settle.
Qed.

Lemma myCallback_commit s env r cleartexts proof :
  outcome (myCallback env r cleartexts proof) s = None ->
  let ctx := context_of s r in
  exists totalArea totalCarbon,
    abi_decode_uint32_pair cleartexts = Some (totalArea, totalCarbon) /\
    commit (myCallback env r cleartexts proof) s =
      set_events
        (events s ++ [DecryptionCompleted r (batchId ctx) totalArea totalCarbon])
        (set_decryptionContexts
           (<[r := mkDecryptionContext (batchId ctx) (stateHash ctx) true]>
              (decryptionContexts s)) s).
Proof. open_call. cbn. settle; eauto. Qed.

End Outcomes.

(** ** The decryption callback *)

Section Callback.
Context `{FHEVM}.

(** A processed context stays processed: no later request reuses its id. *)
Lemma processed_step s env c r :
  contexts_issued s ->
  processed (context_of s r) = true ->
  processed (context_of (execute env c s) r) = true.
Proof.
  intros Hi Hp.
  assert (is_Some (decryptionContexts s !! r)) as Hr.
  { destruct (decryptionContexts s !! r) eqn:E; [by eauto|].
    by rewrite (mget_None _ _ _ E) in Hp. }
  apply Hi in Hr. destruct c; paths; try done.
  all: rewrite mget_insert; case_decide; subst; try done; lia.
Qed.

Lemma processed_run cs s r :
  reachable s ->
  processed (context_of s r) = true ->
  processed (context_of (run cs s) r) = true.
Proof.
  revert s. induction cs as [|[env c] cs IH]; [done|].
  intros s Hs Hp. apply IH; [by constructor|].
  apply processed_step; [|done]. by apply reachable_invariant.
Qed.

(** C3. [myCallback] runs its checks in a fixed order: the replay guard first,
    then the recomputation of the aggregate and the comparison of its
    commitment with the stored one, then the proof verification (and last the
    decoding of the cleartexts).  The first check that fails decides the error.
    A call that returns passed all of them; only then is the context marked
    processed and the completed event appended, nothing else being written.
    A call that fails, for whatever reason, leaves the whole storage, the
    processed flag included, as it was. *)
Theorem myCallback_check_order s env r cleartexts proof :
  let ctx := context_of s r in
  let t := aggregate_loop s (batchId ctx) in
  let s' := execute env (MyCallback r cleartexts proof) s in
  outcome (myCallback env r cleartexts proof) s =
    (if processed ctx then Some ReplayAttempt
     else if negb (initialized t) then Some InvalidBatchId
     else if negb (_hashCiphertexts (handles t) =? stateHash ctx)
       then Some StateMismatch
     else if negb (FHE_checkSignatures r cleartexts proof)
       then Some SignaturesRejected
     else if abi_decode_uint32_pair cleartexts is None then Some AbiDecodeFailed
     else None) /\
  match outcome (myCallback env r cleartexts proof) s with
  | None =>
      processed ctx = false /\
      _hashCiphertexts (handles t) = stateHash ctx /\
      FHE_checkSignatures r cleartexts proof = true /\
      exists totalArea totalCarbon,
        abi_decode_uint32_pair cleartexts = Some (totalArea, totalCarbon) /\
        s' = set_events
               (events s ++
                [DecryptionCompleted r (batchId ctx) totalArea totalCarbon])
               (set_decryptionContexts
                  (<[r := mkDecryptionContext (batchId ctx) (stateHash ctx) true]>
                     (decryptionContexts s)) s)
  | Some _ => s' = s /\ processed (context_of s' r) = processed ctx
  end.
Proof.
  intros ctx t s'. split; [apply myCallback_outcome|].
  destruct (outcome (myCallback env r cleartexts proof) s) as [e|] eqn:Hout.
  - assert (s' = s) as -> by (by eapply (execute_reverted _ _ (MyCallback _ _ _))).
    done.
  - pose proof (myCallback_commit _ _ _ _ _ Hout) as (a & c & Hdec & Hs').
    rewrite myCallback_outcome in Hout. fold ctx t in Hout.
    destruct (processed ctx); [done|].
    destruct (initialized t); [|done]. cbn in Hout.
    destruct (_hashCiphertexts (handles t) =? stateHash ctx) eqn:Hh; [|done].
    destruct (FHE_checkSignatures r cleartexts proof); [|done].
    apply N.eqb_eq in Hh. repeat split; try done. by exists a, c.
Qed.

(** C1. Once [myCallback] has returned for a request id, every later call with
    that id, after any run of further calls and with any cleartexts and proof,
    fails with [ReplayAttempt] and leaves the storage unchanged; the context
    stays processed and the log holds exactly one completed event for the
    id. *)
Theorem myCallback_at_most_once s env r cleartexts proof cs env' cleartexts' proof' :
  reachable s ->
  outcome (myCallback env r cleartexts proof) s = None ->
  let s1 := execute env (MyCallback r cleartexts proof) s in
  let s2 := run cs s1 in
  outcome (myCallback env' r cleartexts' proof') s2 = Some ReplayAttempt /\
  execute env' (MyCallback r cleartexts' proof') s2 = s2 /\
  processed (context_of s2 r) = true /\
  completed_count r (events s1) = 1%nat /\
  completed_count r (events s2) = 1%nat.
Proof.
  intros Hs Hout s1 s2.
  assert (reachable s1) as Hs1 by (by constructor).
  assert (processed (context_of s1 r) = true) as Hp1.
  { pose proof (myCallback_commit _ _ _ _ _ Hout) as (a & c & _ & Hc).
    unfold s1, execute, dispatch. rewrite Hc. cbn. by rewrite mget_insert_eq. }
  assert (processed (context_of s2 r) = true) as Hp2 by (by apply processed_run).
  assert (reachable s2) as Hs2 by (by apply reachable_run).
  assert (outcome (myCallback env' r cleartexts' proof') s2 = Some ReplayAttempt)
    as Hreplay by (rewrite myCallback_outcome; cbn; by rewrite Hp2).
  split; [done|]. split.
  { by eapply (execute_reverted _ _ (MyCallback _ _ _)). }
  split; [done|].
  pose proof (reachable_invariant _ Hs1) as (_ & _ & _ & Hc1).
  pose proof (reachable_invariant _ Hs2) as (_ & _ & _ & Hc2).
  by rewrite (Hc1 r), (Hc2 r), Hp1, Hp2.
Qed.

(** C9. In a reachable state a request id that has no stored context cannot be
    finalised: the zero context targets batch 0, which holds no asset, so the
    loop of [myCallback] never sets [initialized] and the call fails with
    [InvalidBatchId], leaving the storage unchanged; the log holds no
    completed event for such an id.  Every id the oracle has not issued yet is
    such an id. *)
Theorem myCallback_unknown_request s env r cleartexts proof :
  reachable s ->
  decryptionContexts s !! r = None ->
  batchId (context_of s r) = 0 /\
  count_of s 0 = 0 /\
  initialized (aggregate_loop s 0) = false /\
  outcome (myCallback env r cleartexts proof) s = Some InvalidBatchId /\
  execute env (MyCallback r cleartexts proof) s = s /\
  completed_count r (events s) = 0%nat.
Proof.
  intros Hs Hr.
  pose proof (reachable_invariant _ Hs) as ((_ & Hin) & _ & _ & Hc).
  assert (count_of s 0 = 0) as H0.
  { destruct (decide (count_of s 0 = 0)) as [|Hne]; [done|].
    assert (1 <= 0 <= currentBatchId s) by (apply Hin; by right). lia. }
  assert (initialized (aggregate_loop s 0) = false) as Hini
    by (by rewrite aggregate_loop_initialized, H0).
  assert (outcome (myCallback env r cleartexts proof) s = Some InvalidBatchId)
    as Hout.
  { rewrite myCallback_outcome. rewrite (mget_None _ _ _ Hr). cbn.
    by rewrite Hini. }
  rewrite (mget_None _ _ _ Hr). repeat split; try done.
  - by eapply (execute_reverted _ _ (MyCallback _ _ _)).
  - rewrite (Hc r). by rewrite (mget_None _ _ _ Hr).
Qed.

(** Ids at or above the request counter have no stored context. *)
Lemma unissued_request_has_no_context s r :
  reachable s -> counterRequest s <= r -> decryptionContexts s !! r = None.
Proof.
  intros Hs Hr. pose proof (reachable_invariant _ Hs) as (_ & _ & Hi & _).
  destruct (decryptionContexts s !! r) eqn:E; [|done].
  assert (r < counterRequest s) by (apply Hi; by rewrite E). lia.
Qed.

End Callback.

(** ** Staleness *)

Section Staleness.
Context `{FHEVM}.

(** Asset counts never decrease. *)
Lemma count_step s env c b : count_of s b <= count_of (execute env c s) b.
Proof.
  destruct c; paths; try lia.
  rewrite mget_insert. case_decide; subst; lia.
Qed.



(** The context of an issued id is written by its own callback only. *)
Lemma context_step s env c r :
  r < counterRequest s ->
  is_callback_for r c = false ->
  decryptionContexts (execute env c s) !! r = decryptionContexts s !! r.
Proof.
  intros Hr Hc. destruct c; paths; try done.
  all: rewrite lookup_insert_ne; [done|lia].
Qed.

Lemma context_run cs s r :
  r < counterRequest s ->
  Forall (fun ec => is_callback_for r ec.2 = false) cs ->
  decryptionContexts (run cs s) !! r = decryptionContexts s !! r.
Proof.
  revert s. induction cs as [|[env c] cs IH]; intros s Hr Hcs; [done|].
  apply Forall_cons in Hcs as [Hc Hcs].
  change (run ((env, c) :: cs) s) with (run cs (execute env c s)).
  rewrite IH; [by apply context_step| |done].
  pose proof (counterRequest_step s env c). lia.
Qed.


End Staleness.

(** ** Pause and cooldown guards *)

Section Guards.
Context `{FHEVM}.


(** C6. [submitAsset] and [requestBatchSummaryDecryption] each return only
    when [block.timestamp >= lastTime[msg.sender] + cooldownSeconds] for their
    own timer; a call that returns sets that timer, for the caller alone, to
    [block.timestamp] in the same transaction and leaves the other action's
    timers alone; a call that fails, whatever the reason, leaves the storage,
    and so both timers, as it was. *)
Theorem cooldown_guard s env :
  (forall a h c bio,
     let s' := execute env (SubmitAsset a h c bio) s in
     match outcome (submitAsset env a h c bio) s with
     | None =>
         mget 0 (lastSubmissionTime s) (msg_sender env) + cooldownSeconds s
           <= block_timestamp env /\
         lastSubmissionTime s' =
           <[msg_sender env := block_timestamp env]> (lastSubmissionTime s) /\
         mget 0 (lastSubmissionTime s') (msg_sender env) = block_timestamp env /\
         lastDecryptionRequestTime s' = lastDecryptionRequestTime s
     | Some _ => s' = s
     end) /\
  (forall b,
     let s' := execute env (RequestBatchSummaryDecryption b) s in
     match outcome (requestBatchSummaryDecryption env b) s with
     | None =>
         mget 0 (lastDecryptionRequestTime s) (msg_sender env) + cooldownSeconds s
           <= block_timestamp env /\
         lastDecryptionRequestTime s' =
           <[msg_sender env := block_timestamp env]> (lastDecryptionRequestTime s) /\
         mget 0 (lastDecryptionRequestTime s') (msg_sender env)
           = block_timestamp env /\
         lastSubmissionTime s' = lastSubmissionTime s
     | Some _ => s' = s
     end) /\
  (forall a lastTime,
     outcome (respectCooldown env a lastTime) s =
       (if negb (mget 0 (lastTime s) a + cooldownSeconds s <=? UINT256_MAX)
        then Some Panic
        else if block_timestamp env <? mget 0 (lastTime s) a + cooldownSeconds s
        then Some CooldownActive else None) /\
     commit (respectCooldown env a lastTime) s = s).
Proof.
  repeat apply conj.
  - intros a h c bio s'.
    destruct (outcome (submitAsset env a h c bio) s) as [e|] eqn:Hout.
    + by eapply (execute_reverted _ _ (SubmitAsset _ _ _ _)).
    + unfold s', execute, dispatch. rewrite (submitAsset_commit _ _ _ _ _ _ Hout).
      cbn. rewrite mget_insert_eq. repeat split.
      rewrite submitAsset_outcome in Hout. cbn in Hout. revert Hout. settle.
  - intros b s'.
    destruct (outcome (requestBatchSummaryDecryption env b) s) as [e|] eqn:Hout.
    + by eapply (execute_reverted _ _ (RequestBatchSummaryDecryption _)).
    + unfold s', execute, dispatch.
      rewrite (requestBatchSummaryDecryption_commit _ _ _ Hout).
      cbn. rewrite mget_insert_eq. repeat split.
      rewrite requestBatchSummaryDecryption_outcome in Hout. cbn in Hout.
      revert Hout. settle.
  - intros a lastTime. split; open_call; cbn; settle.
Qed.

End Guards.

(** ** Aggregation *)

Section Aggregation.
Context `{FHEVM}.






End Aggregation.

(** ** Batches and their records *)

Section Batches.
Context `{FHEVM}.

Lemma batch_records_ext s s' b :
  count_of s' b = count_of s b ->
  (forall i, batchAssets s' !! (b, i) = batchAssets s !! (b, i)) ->
  batch_records s' b = batch_records s b.
Proof.
  intros Hc Ha. unfold batch_records. rewrite Hc.
  apply list_fmap_ext. intros _ i _. unfold mget. by rewrite Ha.
Qed.

(** What a call can do to a batch that cannot take submissions: one that is
    closed, or one below the current batch. *)
Lemma sealed_step s env c b :
  b <= currentBatchId s ->
  open_of s b = false \/ b < currentBatchId s ->
  let s' := execute env c s in
  b <= currentBatchId s' /\
  (b < currentBatchId s -> b < currentBatchId s') /\
  (open_of s b = false -> open_of s' b = false) /\
  count_of s' b = count_of s b /\
  (forall i, batchAssets s' !! (b, i) = batchAssets s !! (b, i)).
Proof.
  intros Hle Hsealed. destruct c; paths.
  all: repeat split; try done; try lia; intros;
    rewrite ?mget_insert, ?lookup_insert; repeat case_decide; simplify_eq;
    try done; try lia.
  all: destruct Hsealed; try congruence; lia.
Qed.

Lemma sealed_run cs s b :
  b <= currentBatchId s ->
  open_of s b = false \/ b < currentBatchId s ->
  let s' := run cs s in
  b <= currentBatchId s' /\
  (b < currentBatchId s -> b < currentBatchId s') /\
  (open_of s b = false -> open_of s' b = false) /\
  count_of s' b = count_of s b /\
  (forall i, batchAssets s' !! (b, i) = batchAssets s !! (b, i)).
Proof.
  revert s. induction cs as [|[env c] cs IH]; intros s Hle Hsealed.
  - cbn. repeat split; done.
  - change (run ((env, c) :: cs) s) with (run cs (execute env c s)).
    destruct (sealed_step s env c b Hle Hsealed) as (Hle1 & Hlt1 & Hop1 & Hc1 & Ha1).
    destruct (IH (execute env c s)) as (Hle2 & Hlt2 & Hop2 & Hc2 & Ha2); [done| |].
    { destruct Hsealed; [left|right]; auto. }
    cbn zeta. repeat split; auto.
    + congruence.
    + intros i. by rewrite Ha2, Ha1.
Qed.

(** An open flag is cleared by [closeBatch] on that batch only. *)
Lemma open_step s env c b :
  open_of s b = true -> is_close_of b c = false ->
  open_of (execute env c s) b = true.
Proof.
  intros Ho Hc. destruct c; paths; try done.
  all: rewrite mget_insert; case_decide; subst; try done.
Qed.

Lemma open_run cs s b :
  open_of s b = true ->
  Forall (fun ec => is_close_of b ec.2 = false) cs ->
  open_of (run cs s) b = true.
Proof.
  revert s. induction cs as [|[env c] cs IH]; intros s Ho Hcs; [done|].
  apply Forall_cons in Hcs as [Hc Hcs].
  change (run ((env, c) :: cs) s) with (run cs (execute env c s)).
  apply IH; [|done]. by apply open_step.
Qed.

Lemma closeBatch_commit s env b :
  outcome (closeBatch env b) s = None ->
  commit (closeBatch env b) s =
    set_events (events s ++ [BatchClosed b])
      (set_isBatchOpen (<[b := false]> (isBatchOpen s)) s).
Proof. open_call. cbn. settle. Qed.

Lemma openNewBatch_commit s env :
  outcome (openNewBatch env) s = None ->
  commit (openNewBatch env) s =
    set_events (events s ++ [BatchOpened (currentBatchId s + 1)])
      (set_isBatchOpen (<[currentBatchId s + 1 := true]> (isBatchOpen s))
         (set_currentBatchId (currentBatchId s + 1) s)).
Proof. open_call. cbn. settle. Qed.

(** C7. For the owner, [closeBatch(b)] fails with [BatchClosedOrInvalid]
    exactly when [b] is not open, and an id that was never created is not
    open.  After [closeBatch(b)] has returned, whatever calls follow, from
    whatever callers: [b] is never open again, its asset count and its records
    stay what they were, and no [submitAsset] changes that count. *)
Theorem closeBatch_irreversible s env b cs :
  reachable s ->
  (outcome (closeBatch env b) s = Some BatchClosedOrInvalid <->
     msg_sender env = owner s /\ open_of s b = false) /\
  (b = 0 \/ currentBatchId s < b -> open_of s b = false) /\
  (outcome (closeBatch env b) s = None ->
     let s1 := execute env (CloseBatch b) s in
     let s2 := run cs s1 in
     open_of s b = true /\
     open_of s1 b = false /\
     open_of s2 b = false /\
     count_of s2 b = count_of s b /\
     batch_records s2 b = batch_records s b /\
     forall env' a h c bio,
       count_of (execute env' (SubmitAsset a h c bio) s2) b = count_of s b).
Proof.
  intros Hs. pose proof (reachable_invariant _ Hs) as ((Hcur & Hin) & _).
  split; [|split].
  - rewrite closeBatch_outcome. split.
    + intros Hout. split; revert Hout; settle.
    + intros [-> ->]. by rewrite N.eqb_refl.
  - intros Hb. destruct (open_of s b) eqn:Ho; [|done].
    assert (1 <= b <= currentBatchId s) by (apply Hin; by left). lia.
  - intros Hout s1 s2.
    assert (open_of s b = true) as Ho.
    { rewrite closeBatch_outcome in Hout. revert Hout. settle. }
    assert (1 <= b <= currentBatchId s) as Hb by (apply Hin; by left).
    assert (s1 = set_events (events s ++ [BatchClosed b])
                   (set_isBatchOpen (<[b := false]> (isBatchOpen s)) s)) as Hs1
      by (by apply closeBatch_commit).
    assert (open_of s1 b = false) as Ho1
      by (rewrite Hs1; cbn; by rewrite mget_insert_eq).
    assert (b <= currentBatchId s1) as Hb1 by (rewrite Hs1; cbn; lia).
    assert (count_of s1 b = count_of s b) as Hc1 by (by rewrite Hs1).
    assert (forall i, batchAssets s1 !! (b, i) = batchAssets s !! (b, i)) as Ha1
      by (by rewrite Hs1).
    destruct (sealed_run cs s1 b Hb1 (or_introl Ho1))
      as (Hb2 & _ & Ho2 & Hc2 & Ha2). fold s2 in Hb2, Ho2, Hc2, Ha2.
    repeat split; auto.
    + congruence.
    + apply batch_records_ext; [congruence|]. intros i. by rewrite Ha2, Ha1.
    + intros env' a h c bio.
      destruct (sealed_step s2 env' (SubmitAsset a h c bio) b Hb2
                  (or_introl (Ho2 Ho1))) as (_ & _ & _ & Hc3 & _).
      congruence.
Qed.

(** C8. In a reachable state the records of a batch sit at the indices
    [0 .. assetCount-1] and nowhere else.  A [submitAsset] that returns writes
    the record at the index equal to the current batch's count, a slot that
    was empty, and raises that count by one.  No call changes or removes a
    stored record, and no call lowers a count. *)
Theorem asset_indices_sequential s :
  reachable s ->
  (forall b i, is_Some (batchAssets s !! (b, i)) <-> i < count_of s b) /\
  (forall env a h c bio,
     outcome (submitAsset env a h c bio) s = None ->
     let s' := execute env (SubmitAsset a h c bio) s in
     let cur := currentBatchId s in
     batchAssets s !! (cur, count_of s cur) = None /\
     batchAssets s' =
       <[(cur, count_of s cur) := mkAssetData a h c bio (msg_sender env)]>
         (batchAssets s) /\
     assetCountInBatch s' = <[cur := count_of s cur + 1]> (assetCountInBatch s) /\
     count_of s' cur = count_of s cur + 1) /\
  (forall env c k record,
     batchAssets s !! k = Some record ->
     batchAssets (execute env c s) !! k = Some record) /\
  (forall env c b, count_of s b <= count_of (execute env c s) b).
Proof.
  intros Hs. pose proof (reachable_invariant _ Hs) as (_ & Hd & _).
  assert (forall b, batchAssets s !! (b, count_of s b) = None) as Hfree.
  { intros b. destruct (batchAssets s !! (b, count_of s b)) eqn:E; [|done].
    assert (count_of s b < count_of s b); [|lia]. apply Hd. by rewrite E. }
  split; [done|]. split; [|split].
  - intros env a h c bio Hout s' cur. unfold s', execute, dispatch.
    rewrite (submitAsset_commit _ _ _ _ _ _ Hout). cbn.
    rewrite mget_insert_eq. repeat split. apply Hfree.
  - intros env c [b i] record Hk. destruct c; paths; try done.
    rewrite lookup_insert_ne; [done|]. intros [= <- <-].
    by rewrite Hfree in Hk.
  - intros env c b. apply count_step.
Qed.

(** C10. [openNewBatch] raises [currentBatchId] by one and sets the open flag
    of the new id, touching no other flag: a batch that was open stays open,
    so two ids can be open at once.  A batch at or below the old current id
    can then never take another asset, whatever calls follow: its count and
    records stay what they were.  Its flag stays set until [closeBatch] is
    called on it, and the owner's [closeBatch] on it still returns and clears
    the flag. *)
Theorem openNewBatch_supersedes s env b cs :
  outcome (openNewBatch env) s = None ->
  b <= currentBatchId s ->
  let s1 := execute env OpenNewBatch s in
  let s2 := run cs s1 in
  currentBatchId s1 = currentBatchId s + 1 /\
  isBatchOpen s1 = <[currentBatchId s + 1 := true]> (isBatchOpen s) /\
  open_of s1 (currentBatchId s + 1) = true /\
  open_of s1 b = open_of s b /\
  b < currentBatchId s2 /\
  count_of s2 b = count_of s b /\
  batch_records s2 b = batch_records s b /\
  (forall env' a h c bio,
     count_of (execute env' (SubmitAsset a h c bio) s2) b = count_of s b) /\
  (open_of s b = true ->
   Forall (fun ec => is_close_of b ec.2 = false) cs ->
   open_of s2 b = true) /\
  (forall env', msg_sender env' = owner s2 -> open_of s2 b = true ->
     outcome (closeBatch env' b) s2 = None /\
     open_of (execute env' (CloseBatch b) s2) b = false).
Proof.
  intros Hout Hb s1 s2.
  assert (s1 = set_events (events s ++ [BatchOpened (currentBatchId s + 1)])
     (set_isBatchOpen (<[currentBatchId s + 1 := true]> (isBatchOpen s))
        (set_currentBatchId (currentBatchId s + 1) s))) as Hs1
    by (by apply openNewBatch_commit).
  assert (open_of s1 b = open_of s b) as Ho1
    by (rewrite Hs1; cbn; rewrite mget_insert_ne; [done|lia]).
  assert (b < currentBatchId s1) as Hb1 by (rewrite Hs1; cbn; lia).
  destruct (sealed_run cs s1 b (N.lt_le_incl _ _ Hb1) (or_intror Hb1))
    as (_ & Hb2 & _ & Hc2 & Ha2). fold s2 in Hb2, Hc2, Ha2.
  specialize (Hb2 Hb1).
  assert (count_of s1 b = count_of s b) as Hc1 by (by rewrite Hs1).
  repeat split.
  - by rewrite Hs1.
  - by rewrite Hs1.
  - rewrite Hs1. cbn. by rewrite mget_insert_eq.
  - done.
  - done.
  - congruence.
  - apply batch_records_ext; [congruence|]. intros i.
    rewrite Ha2. by rewrite Hs1.
  - intros env' a h c bio.
    destruct (sealed_step s2 env' (SubmitAsset a h c bio) b
                (N.lt_le_incl _ _ Hb2) (or_intror Hb2)) as (_ & _ & _ & Hc3 & _).
    congruence.
  - intros Ho Hcs. apply open_run; [|done]. by rewrite Ho1.
  - rewrite closeBatch_outcome.
    match goal with
    | Hown : msg_sender _ = owner s2, Hopen : open_of s2 b = true |- _ =>
        by rewrite Hown, N.eqb_refl, Hopen
    end.
  - unfold execute, dispatch. rewrite closeBatch_commit.
    + cbn. by rewrite mget_insert_eq.
    + rewrite closeBatch_outcome.
      match goal with
      | Hown : msg_sender _ = owner s2, Hopen : open_of s2 b = true |- _ =>
          by rewrite Hown, N.eqb_refl, Hopen
      end.
Qed.

End Batches.

(** ** The theorems at work on the concrete deployment *)

Section Runs.
#[local] Existing Instance Scenario.fhevm.

Lemma s_provider_reachable : reachable Scenario.s_provider.
Proof. unfold Scenario.s_provider. apply reachable_step, reachable_deploy. Qed.

Lemma s_one_asset_reachable : reachable Scenario.s_one_asset.
Proof. unfold Scenario.s_one_asset. apply reachable_step, s_provider_reachable. Qed.

Lemma s_requested_reachable : reachable Scenario.s_requested.
Proof. unfold Scenario.s_requested. apply reachable_step, s_one_asset_reachable. Qed.

Lemma s_paused_reachable : reachable Scenario.s_paused.
Proof. unfold Scenario.s_paused. apply reachable_step, s_provider_reachable. Qed.



(** The oracle answers request 0 with [(10, 3)]; a second delivery, after a
    further submission and with another payload, is a replay. *)
Lemma myCallback_at_most_once_witness :
  let s2 := run [(mkEnv Scenario.provider 700, SubmitAsset 2001 2002 2003 2004)]
                Scenario.s_completed in
  outcome (myCallback (mkEnv 9 900) 0 [] Scenario.valid_proof) s2
    = Some ReplayAttempt /\
  execute (mkEnv 9 900) (MyCallback 0 [] Scenario.valid_proof) s2 = s2 /\
  processed (context_of s2 0) = true /\
  completed_count 0 (events Scenario.s_completed) = 1%nat /\
  completed_count 0 (events s2) = 1%nat.
Proof.
  apply (myCallback_at_most_once Scenario.s_requested
           (mkEnv Scenario.requester 400) 0
           Scenario.cleartexts_10_3 Scenario.valid_proof).
  - apply s_requested_reachable.
  - vm_compute. reflexivity.
Defined.






(** The owner closes batch 1; the provider's later submission is turned away
    and the batch keeps its one record. *)
Lemma closeBatch_irreversible_witness :
  let s2 := run [(mkEnv Scenario.provider 700, SubmitAsset 2001 2002 2003 2004);
                 (mkEnv Scenario.deployer 800, OpenNewBatch)]
                Scenario.s_closed in
  open_of Scenario.s_one_asset 1 = true /\
  open_of Scenario.s_closed 1 = false /\
  open_of s2 1 = false /\
  count_of s2 1 = count_of Scenario.s_one_asset 1 /\
  batch_records s2 1 = batch_records Scenario.s_one_asset 1 /\
  forall env' a h c bio,
    count_of (execute env' (SubmitAsset a h c bio) s2) 1 =
    count_of Scenario.s_one_asset 1.
Proof.
  destruct (closeBatch_irreversible Scenario.s_one_asset
              (mkEnv Scenario.deployer 600) 1
              [(mkEnv Scenario.provider 700, SubmitAsset 2001 2002 2003 2004);
               (mkEnv Scenario.deployer 800, OpenNewBatch)]
              s_one_asset_reachable) as (_ & _ & Hclosed).
  apply Hclosed. vm_compute. reflexivity.
Defined.

(** After one submission batch 1 holds index 0 and nothing else. *)
Lemma asset_indices_sequential_witness :
  is_Some (batchAssets Scenario.s_one_asset !! (1, 0)) /\
  ~ is_Some (batchAssets Scenario.s_one_asset !! (1, 1)) /\
  ~ is_Some (batchAssets Scenario.s_one_asset !! (2, 0)).
Proof.
  destruct (asset_indices_sequential Scenario.s_one_asset
              s_one_asset_reachable) as (Hdense & _).
  rewrite !Hdense. vm_compute. repeat split; discriminate.
Defined.

(** Request id 5 was never issued on the concrete deployment. *)
Lemma myCallback_unknown_request_witness :
  outcome (myCallback (mkEnv 9 400) 5
             Scenario.cleartexts_10_3 Scenario.valid_proof) Scenario.s_requested
    = Some InvalidBatchId.
Proof.
  destruct (myCallback_unknown_request Scenario.s_requested (mkEnv 9 400) 5
              Scenario.cleartexts_10_3 Scenario.valid_proof
              s_requested_reachable) as (_ & _ & _ & Hout & _).
  - vm_compute. reflexivity.
  - exact Hout.
Defined.

(** The owner opens batch 2 while batch 1 is open: both flags are set, the
    next submission lands in batch 2, and batch 1 can still be closed. *)
Lemma openNewBatch_supersedes_witness :
  let s2 := run [(mkEnv Scenario.provider 700, SubmitAsset 2001 2002 2003 2004)]
                Scenario.s_two_open in
  open_of Scenario.s_two_open 2 = true /\
  open_of Scenario.s_two_open 1 = open_of Scenario.s_one_asset 1 /\
  count_of s2 1 = count_of Scenario.s_one_asset 1 /\
  open_of s2 1 = true.
Proof.
  destruct (openNewBatch_supersedes Scenario.s_one_asset
              (mkEnv Scenario.deployer 500) 1
              [(mkEnv Scenario.provider 700, SubmitAsset 2001 2002 2003 2004)])
    as (_ & _ & Hnew & Hold & _ & Hcount & _ & _ & Hopen & _).
  - vm_compute. reflexivity.
  - vm_compute. discriminate.
  - split; [exact Hnew|]. split; [exact Hold|]. split; [exact Hcount|].
    apply Hopen; [vm_compute; reflexivity|repeat constructor].
Defined.

End Runs.

(** * Further properties of the contract *)

(** ** Administration *)

Section Administration.
Context `{FHEVM}.

(** The event log is never read: two storages that differ in it only give
    every call the same outcome. *)
Lemma outcome_events_irrelevant s env c log :
  outcome (dispatch env c) (set_events log s) = outcome (dispatch env c) s.
Proof.
  destruct c; cbn [dispatch].
  6: by rewrite !openNewBatch_outcome.
  6: by rewrite !closeBatch_outcome.
  6: by rewrite !submitAsset_outcome.
  6: by rewrite !requestBatchSummaryDecryption_outcome.
  6: by rewrite !myCallback_outcome.
  all: open_call; cbn; settle.
Qed.

(** X1. A caller who is not the owner changes none of the administrative storage:
    owner, provider registry, pause flag, cooldown, current batch id and open
    flags stay as they were, whatever the call. *)
Theorem non_owner_cannot_administer s env c :
  msg_sender env <> owner s ->
  let s' := execute env c s in
  owner s' = owner s /\
  isProvider s' = isProvider s /\
  paused s' = paused s /\
  cooldownSeconds s' = cooldownSeconds s /\
  currentBatchId s' = currentBatchId s /\
  isBatchOpen s' = isBatchOpen s.
Proof. intros Hno. destruct c; paths; done. Qed.

(** X2. [transferOwnership] by the owner returns for every new owner, the zero
    address included, writes the owner and one event, and locks the previous
    owner out of every owner-only call. *)
Theorem transferOwnership_hands_over s env newOwner :
  msg_sender env = owner s ->
  let s' := execute env (TransferOwnership newOwner) s in
  outcome (transferOwnership env newOwner) s = None /\
  s' = set_owner newOwner
         (set_events (events s ++ [OwnershipTransferred (owner s) newOwner]) s) /\
  (newOwner <> owner s ->
   forall env' c, msg_sender env' = owner s -> is_owner_only c = true ->
     outcome (dispatch env' c) s' = Some NotOwner) /\
  (forall env' c, msg_sender env' = newOwner -> is_owner_only c = true ->
     outcome (dispatch env' c) s' <> Some NotOwner).
Proof.
  intros Hown s'.
  assert (s' = set_owner newOwner
         (set_events (events s ++ [OwnershipTransferred (owner s) newOwner]) s))
    as Hs' by (unfold s'; paths; done).
  split; [open_call; cbn; settle|]. split; [done|]. rewrite Hs'. split.
  - intros Hne env' c Hold Hc. destruct c; try done; open_call; cbn; settle.
  - intros env' c Hnew Hc. destruct c; try done; open_call; cbn; settle.
Qed.

(** X3. The cooldown is positive in every reachable state: the constructor sets
    60 and [setCooldownSeconds] turns zero away, for every caller. *)
Theorem cooldown_always_positive s env :
  reachable s ->
  0 < cooldownSeconds s /\
  outcome (setCooldownSeconds env 0) s =
    Some (if msg_sender env =? owner s
          then RequireFailed "Cooldown must be positive" else NotOwner) /\
  cooldownSeconds (execute env (SetCooldownSeconds 0) s) = cooldownSeconds s.
Proof.
  intros Hs. split; [|split].
  - induction Hs as [d|s env' c _ IH]; [by paths|].
    destruct c; paths; done || lia.
  - open_call. cbn. settle.
  - paths; done.
Qed.

(** X4. The provider registry: the owner's [addProvider] and [removeProvider]
    always return, set the entry of that address alone, and are idempotent up
    to the log; a removed address is turned away by [submitAsset], an added
    one passes its role check. *)
Theorem provider_registry s env p :
  msg_sender env = owner s ->
  let s_add := execute env (AddProvider p) s in
  let s_rem := execute env (RemoveProvider p) s in
  outcome (addProvider env p) s = None /\
  outcome (removeProvider env p) s = None /\
  mget false (isProvider s_add) p = true /\
  mget false (isProvider s_rem) p = false /\
  (forall q, q <> p ->
     mget false (isProvider s_add) q = mget false (isProvider s) q /\
     mget false (isProvider s_rem) q = mget false (isProvider s) q) /\
  isProvider (execute env (AddProvider p) s_add) = isProvider s_add /\
  isProvider (execute env (RemoveProvider p) s_rem) = isProvider s_rem /\
  mget false (isProvider (execute env (RemoveProvider p) s_add)) p = false /\
  (forall env' a h c bio, msg_sender env' = p ->
     outcome (submitAsset env' a h c bio) s_rem = Some NotProvider /\
     outcome (submitAsset env' a h c bio) s_add <> Some NotProvider).
Proof.
  intros Hown s_add s_rem.
  assert (s_add = set_events (events s ++ [ProviderAdded p])
            (set_isProvider (<[p := true]> (isProvider s)) s)) as Hadd
    by (unfold s_add; paths; done).
  assert (s_rem = set_events (events s ++ [ProviderRemoved p])
            (set_isProvider (<[p := false]> (isProvider s)) s)) as Hrem
    by (unfold s_rem; paths; done).
  split; [open_call; cbn; settle|]. split; [open_call; cbn; settle|].
  rewrite Hadd, Hrem. cbn. rewrite !mget_insert_eq.
  split; [done|]. split; [done|]. split.
  { intros q Hq. by rewrite !mget_insert_ne. }
  split. { paths; cbn; by rewrite ?insert_insert_eq. }
  split. { paths; cbn; by rewrite ?insert_insert_eq. }
  split. { paths; cbn; by rewrite ?mget_insert_eq. }
  intros env' a h c bio Hp. rewrite !submitAsset_outcome. cbn.
  rewrite Hp, !mget_insert_eq. cbn. split; [done|]. settle.
Qed.

(** X5. [setPaused] by the owner sets the flag to its argument and logs [Paused]
    or [Unpaused], also when the flag does not change.  Pausing and then
    unpausing an unpaused contract changes the log alone, so every later call
    has the outcome it would have had without the pause. *)
Theorem pause_unpause_roundtrip s env1 env2 :
  msg_sender env1 = owner s ->
  msg_sender env2 = owner s ->
  paused s = false ->
  let s1 := execute env1 (SetPaused true) s in
  let s2 := execute env2 (SetPaused false) s1 in
  s1 = set_events (events s ++ [Paused (msg_sender env1)]) (set_paused true s) /\
  s2 = set_events
         (events s ++ [Paused (msg_sender env1); Unpaused (msg_sender env2)]) s /\
  (forall env c, outcome (dispatch env c) s2 = outcome (dispatch env c) s).
Proof.
  intros Ho1 Ho2 Hp s1 s2.
  assert (s1 = set_events (events s ++ [Paused (msg_sender env1)])
                 (set_paused true s)) as Hs1 by (unfold s1; paths; done).
  assert (s2 = set_events
         (events s ++ [Paused (msg_sender env1); Unpaused (msg_sender env2)]) s)
    as Hs2.
  { unfold s2. rewrite Hs1. paths; try done.
    unfold set_events, set_paused. cbn. rewrite <- Hp, <- app_assoc.
    by destruct s. }
  split; [done|]. split; [done|].
  intros env c. rewrite Hs2. apply outcome_events_irrelevant.
Qed.

End Administration.

(** ** Rate limiting, the log and the counters *)

Section Ledger.
Context `{FHEVM}.

(** X6. After a submission that returned at time [t], the same provider's next
    submission fails with [CooldownActive] exactly while
    [block.timestamp < t + cooldownSeconds], and returns from then on (short
    of a 256-bit overflow): role, pause flag and open batch are as the first
    submission found them. *)
Theorem second_submission_cooldown s env a h c bio env2 a2 h2 c2 bio2 :
  outcome (submitAsset env a h c bio) s = None ->
  msg_sender env2 = msg_sender env ->
  let s' := execute env (SubmitAsset a h c bio) s in
  outcome (submitAsset env2 a2 h2 c2 bio2) s' =
    if negb (block_timestamp env + cooldownSeconds s <=? UINT256_MAX)
    then Some Panic
    else if block_timestamp env2 <? block_timestamp env + cooldownSeconds s
    then Some CooldownActive
    else if negb (count_of s (currentBatchId s) + 2 <=? UINT256_MAX)
    then Some Panic
    else None.
Proof.
  intros Hout Hsame s'. unfold s', execute, dispatch.
  rewrite (submitAsset_commit _ _ _ _ _ _ Hout).
  rewrite submitAsset_outcome in Hout. cbn in Hout.
  rewrite submitAsset_outcome. cbn. rewrite Hsame, !mget_insert_eq.
  replace (count_of s (currentBatchId s) + 1 + 1)
    with (count_of s (currentBatchId s) + 2) by lia.
  revert Hout. settle.
Qed.

(** X7. A timer that was never written reads zero, so an address's first
    rate-limited call is itself subject to the cooldown, counted from time
    zero: it fails with [CooldownActive] while
    [block.timestamp < cooldownSeconds]. *)
Theorem first_call_waits_from_zero s env b :
  lastDecryptionRequestTime s !! msg_sender env = None ->
  paused s = false ->
  cooldownSeconds s <= UINT256_MAX ->
  block_timestamp env < cooldownSeconds s ->
  outcome (requestBatchSummaryDecryption env b) s = Some CooldownActive.
Proof.
  intros Hnone Hp Hcd Hnow. rewrite requestBatchSummaryDecryption_outcome. cbn.
  rewrite (mget_None _ _ _ Hnone), Hp. cbn. settle.
Qed.


Lemma counters_in_range_step s env c :
  counters_in_range s -> counters_in_range (execute env c s).
Proof.
  intros (Hb & Hr & Hc). destruct c; paths; try (by repeat split).
  all: repeat split; cbn; try done; try lia.
  intros b'. rewrite mget_insert. case_decide; [lia|done].
Qed.

(** X9. The current batch id, the request counter and every asset count are
    256-bit values in every reachable state, and the current batch id is never
    0: the checked increments revert rather than wrap. *)
Theorem counters_fit_uint256 s :
  reachable s ->
  counters_in_range s /\ 1 <= currentBatchId s.
Proof.
  intros Hs. split.
  - induction Hs as [d|s env' c _ IH]; [|by apply counters_in_range_step].
    repeat split; paths; try lia; [by compute|].
    intros b. unfold mget. rewrite lookup_empty. cbn. lia.
  - by pose proof (reachable_invariant _ Hs) as ((Hcur & _) & _).
Qed.

End Ledger.

(** ** Requests and their callbacks *)

Section Requests.
Context `{FHEVM}.

Lemma record_step_kept s env c k record :
  indices_dense s ->
  batchAssets s !! k = Some record ->
  batchAssets (execute env c s) !! k = Some record.
Proof.
  intros Hd Hk. destruct k as [b i].
  assert (forall b', batchAssets s !! (b', count_of s b') = None) as Hfree.
  { intros b'. destruct (batchAssets s !! (b', count_of s b')) eqn:E; [|done].
    assert (count_of s b' < count_of s b'); [|lia]. apply Hd. by rewrite E. }
  destruct c; paths; try done.
  rewrite lookup_insert_ne; [done|]. intros [= <- <-].
  by rewrite Hfree in Hk.
Qed.

Lemma record_run_kept cs s k record :
  reachable s ->
  batchAssets s !! k = Some record ->
  batchAssets (run cs s) !! k = Some record.
Proof.
  revert s. induction cs as [|[env c] cs IH]; intros s Hs Hk; [done|].
  change (run ((env, c) :: cs) s) with (run cs (execute env c s)).
  apply IH; [by constructor|]. apply record_step_kept; [|done].
  by apply reachable_invariant.
Qed.

(** X10. The aggregate of a batch is a function of its records alone: a run of
    calls that leaves the batch's asset count where it was, that is, one with
    no submission into it, leaves both totals and the commitment unchanged.  So
    two requests for an unchanged batch commit to the same hash. *)
Theorem aggregate_stable s cs b :
  reachable s ->
  count_of (run cs s) b = count_of s b ->
  batch_records (run cs s) b = batch_records s b /\
  aggregate_loop (run cs s) b = aggregate_loop s b /\
  _hashCiphertexts (handles (aggregate_loop (run cs s) b)) =
    _hashCiphertexts (handles (aggregate_loop s b)).
Proof.
  intros Hs Hc.
  pose proof (reachable_invariant _ Hs) as (_ & Hd & _).
  assert (forall i, i < count_of s b ->
            asset_of (run cs s) b i = asset_of s b i) as Hrec.
  { intros i Hi. apply Hd in Hi as [record Hr].
    unfold mget. by rewrite (record_run_kept cs s _ _ Hs Hr), Hr. }
  assert (aggregate_loop (run cs s) b = aggregate_loop s b) as Hagg.
  { apply aggregate_loop_ext; [done|]. intros i Hi. apply Hrec. lia. }
  split; [|split; [done|by rewrite Hagg]].
  unfold batch_records. rewrite Hc. apply list_fmap_ext.
  intros k i Hi. apply Hrec, loop_indices_elem.
  by eapply list_elem_of_lookup_2.
Qed.

(** X11. A request is answered: when no asset entered the batch since the request
    and no callback for its id arrived, a callback whose signatures the
    library accepts and whose cleartexts decode returns, marks the context
    processed and logs the decoded totals for that batch. *)
Theorem myCallback_completes
    s env_r b cs env_c cleartexts proof totalArea totalCarbon :
  reachable s ->
  outcome (requestBatchSummaryDecryption env_r b) s = None ->
  let r := counterRequest s in
  let s1 := run cs (execute env_r (RequestBatchSummaryDecryption b) s) in
  Forall (fun ec => is_callback_for r ec.2 = false) cs ->
  count_of s1 b = count_of s b ->
  FHE_checkSignatures r cleartexts proof = true ->
  abi_decode_uint32_pair cleartexts = Some (totalArea, totalCarbon) ->
  let s2 := execute env_c (MyCallback r cleartexts proof) s1 in
  outcome (myCallback env_c r cleartexts proof) s1 = None /\
  processed (context_of s2 r) = true /\
  events s2 = events s1 ++ [DecryptionCompleted r b totalArea totalCarbon].
Proof.
  intros Hs Hreq r s1 Hcs Hcount Hsig Hdec s2.
  set (s0 := execute env_r (RequestBatchSummaryDecryption b) s) in *.
  assert (reachable s0) as Hs0 by (by constructor).
  assert (counterRequest s0 = r + 1 /\ count_of s0 b = count_of s b /\
          aggregate_loop s0 b = aggregate_loop s b /\
          decryptionContexts s0 !! r =
            Some (mkDecryptionContext b
                    (_hashCiphertexts (handles (aggregate_loop s b))) false))
    as (Hctr & Hc0 & Hagg0 & Hctx0).
  { unfold s0, execute, dispatch.
    rewrite (requestBatchSummaryDecryption_commit _ _ _ Hreq). cbn.
    by rewrite lookup_insert_eq. }
  assert (context_of s1 r =
          mkDecryptionContext b
            (_hashCiphertexts (handles (aggregate_loop s b))) false) as Hctx.
  { apply mget_Some. unfold s1. rewrite context_run; [done|lia|done]. }
  assert (aggregate_loop s1 b = aggregate_loop s b) as Hagg.
  { rewrite <- Hagg0. apply aggregate_stable; [done|]. fold s1. congruence. }
  assert (count_of s b <> 0) as Hne.
  { rewrite requestBatchSummaryDecryption_outcome in Hreq. cbn in Hreq.
    revert Hreq. settle. }
  assert (outcome (myCallback env_c r cleartexts proof) s1 = None) as Hout.
  { rewrite myCallback_outcome. cbn. rewrite Hctx. cbn.
    rewrite aggregate_loop_initialized, Hcount, Hagg, N.eqb_refl, Hsig, Hdec.
    apply N.eqb_neq in Hne. by rewrite Hne. }
  split; [done|].
  destruct (myCallback_commit _ _ _ _ _ Hout) as (a' & c' & Hdec' & Hs2).
  unfold s2, execute, dispatch. rewrite Hs2. cbn.
  rewrite mget_insert_eq, Hctx. cbn. split; [done|]. congruence.
Qed.

(** X12. The life of a decryption context: once stored it is never removed, its
    batch id and commitment never change, and its processed flag only goes
    from false to true, by a callback for its own id. *)
Theorem context_lifecycle s env c r ctx :
  reachable s ->
  decryptionContexts s !! r = Some ctx ->
  exists ctx',
    decryptionContexts (execute env c s) !! r = Some ctx' /\
    batchId ctx' = batchId ctx /\
    stateHash ctx' = stateHash ctx /\
    (processed ctx = true -> processed ctx' = true) /\
    (processed ctx' <> processed ctx -> is_callback_for r c = true).
Proof.
  intros Hs Hr. pose proof (reachable_invariant _ Hs) as (_ & _ & Hi & _).
  assert (r < counterRequest s) as Hlt by (apply Hi; by rewrite Hr).
  destruct c; paths; try (by exists ctx).
  - exists ctx. rewrite lookup_insert_ne; [done|lia].
  - match goal with
    | |- context [<[?r' := _]> _] => destruct (decide (r' = r)) as [->|Hne]
    end.
    + rewrite lookup_insert_eq. eexists. split; [done|].
      rewrite (mget_Some _ _ _ _ Hr). cbn. repeat split; try done.
      intros _. apply N.eqb_refl.
    + exists ctx. by rewrite lookup_insert_ne.
Qed.

Lemma abi_decode_uint32_pair_bounds data a c :
  abi_decode_uint32_pair data = Some (a, c) -> a < 2 ^ 32 /\ c < 2 ^ 32.
Proof.
  unfold abi_decode_uint32_pair. repeat case_match; try done.
  intros [= <- <-].
  match goal with Hb : _ && _ = true |- _ => apply andb_true_iff in Hb as [? ?] end.
  tests. done.
Qed.

Lemma completed_events_sound_step s env c :
  reachable s -> completed_events_sound s ->
  completed_events_sound (execute env c s).
Proof.
  intros Hs Hsound.
  assert (forall r b x y, DecryptionCompleted r b x y ∈ events s ->
    processed (context_of (execute env c s) r) = true /\
    batchId (context_of (execute env c s) r) = b /\ x < 2 ^ 32 /\ y < 2 ^ 32)
    as Hold.
  { intros r b x y Hin. destruct (Hsound _ _ _ _ Hin) as (Hp & Hb & Hx & Hy).
    destruct (decryptionContexts s !! r) as [ctx|] eqn:Hr.
    - destruct (context_lifecycle s env c r ctx Hs Hr)
        as (ctx' & Hr' & Hb' & _ & Hp' & _).
      rewrite (mget_Some _ _ _ _ Hr) in Hp, Hb.
      rewrite (mget_Some _ _ _ _ Hr'). repeat split; auto. congruence.
    - by rewrite (mget_None _ _ _ Hr) in Hp. }
  destruct (outcome (dispatch env c) s) as [e|] eqn:Hout.
  { by rewrite (execute_reverted _ _ _ _ Hout). }
  intros r b x y Hin.
  destruct c as [| | | | | | | | |r' ct pf].
  1-9: apply Hold; revert Hin; clear; paths; try done;
    rewrite elem_of_app, list_elem_of_singleton; by intros [?|?].
  cbn [dispatch] in Hout.
  destruct (myCallback_commit _ _ _ _ _ Hout) as (a' & c' & Hdec & Hs').
  pose proof Hin as Hin'. unfold execute, dispatch in Hin'.
  rewrite Hs' in Hin'. cbn in Hin'.
  apply elem_of_app in Hin' as [Hin'|Hin']; [by apply Hold|].
  apply list_elem_of_singleton in Hin'. injection Hin' as -> -> -> ->.
  unfold execute, dispatch. rewrite Hs'. cbn. rewrite mget_insert_eq. cbn.
  destruct (abi_decode_uint32_pair_bounds _ _ _ Hdec). by repeat split.
Qed.

(** X13. The log is sound with respect to the storage: in every reachable state a
    completed event for request [r] and batch [b] means that the context of
    [r] is processed and targets [b], and its two totals are [uint32] values
    (what [abi.decode] let through). *)
Theorem completed_events_are_sound s :
  reachable s -> completed_events_sound s.
Proof.
  induction 1 as [d|s env c Hs IH].
  - intros r b x y. paths. intros Hin.
    apply elem_of_cons in Hin as [?|Hin]; [done|].
    apply elem_of_cons in Hin as [?|Hin]; [done|]. by apply elem_of_nil in Hin.
  - by apply completed_events_sound_step.
Qed.

End Requests.

(** ** The further properties on the concrete deployment *)

Section FurtherRuns.
#[local] Existing Instance Scenario.fhevm.

(** The provider, who is not the owner, tries to pause and to take over. *)
Lemma non_owner_cannot_administer_witness :
  paused (execute (mkEnv Scenario.provider 100) (SetPaused true)
            Scenario.s_provider) = paused Scenario.s_provider /\
  owner (execute (mkEnv Scenario.provider 100) (TransferOwnership 2)
           Scenario.s_provider) = owner Scenario.s_provider.
Proof.
  split.
  - apply (non_owner_cannot_administer Scenario.s_provider
             (mkEnv Scenario.provider 100) (SetPaused true)).
    vm_compute. discriminate.
  - apply (non_owner_cannot_administer Scenario.s_provider
             (mkEnv Scenario.provider 100) (TransferOwnership 2)).
    vm_compute. discriminate.
Defined.

(** The deployer hands the contract to address 7 and can no longer pause. *)
Lemma transferOwnership_hands_over_witness :
  outcome (transferOwnership (mkEnv Scenario.deployer 50) 7) Scenario.s_provider
    = None /\
  outcome (dispatch (mkEnv Scenario.deployer 60) (SetPaused true))
    (execute (mkEnv Scenario.deployer 50) (TransferOwnership 7)
       Scenario.s_provider) = Some NotOwner.
Proof.
  destruct (transferOwnership_hands_over Scenario.s_provider
              (mkEnv Scenario.deployer 50) 7) as (Hout & _ & Hold & _).
  - vm_compute. reflexivity.
  - split; [exact Hout|]. apply Hold.
    + vm_compute. discriminate.
    + vm_compute. reflexivity.
    + reflexivity.
Defined.

Lemma cooldown_always_positive_witness :
  0 < cooldownSeconds Scenario.s_requested /\
  outcome (setCooldownSeconds (mkEnv Scenario.deployer 50) 0)
    Scenario.s_requested = Some (RequireFailed "Cooldown must be positive").
Proof.
  destruct (cooldown_always_positive Scenario.s_requested
              (mkEnv Scenario.deployer 50) s_requested_reachable)
    as (Hpos & Hzero & _).
  split; [exact Hpos|exact Hzero].
Defined.

(** The deployer removes the provider, whose next submission is refused. *)
Lemma provider_registry_witness :
  mget false (isProvider (execute (mkEnv Scenario.deployer 50)
                            (RemoveProvider Scenario.provider)
                            Scenario.s_provider)) Scenario.provider = false /\
  outcome (submitAsset (mkEnv Scenario.provider 100) 1 2 3 4)
    (execute (mkEnv Scenario.deployer 50) (RemoveProvider Scenario.provider)
       Scenario.s_provider) = Some NotProvider.
Proof.
  destruct (provider_registry Scenario.s_provider (mkEnv Scenario.deployer 50)
              Scenario.provider)
    as (_ & _ & _ & Hrem & _ & _ & _ & _ & Hsubmit).
  - vm_compute. reflexivity.
  - split; [exact Hrem|].
    apply (Hsubmit (mkEnv Scenario.provider 100) 1 2 3 4). reflexivity.
Defined.

(** Pause at 20, unpause at 30: the provider's submission at 100 returns as
    it would have without the pause. *)
Lemma pause_unpause_roundtrip_witness :
  outcome (dispatch (mkEnv Scenario.provider 100) (SubmitAsset 1 2 3 4))
    (execute (mkEnv Scenario.deployer 30) (SetPaused false) Scenario.s_paused)
  = outcome (dispatch (mkEnv Scenario.provider 100) (SubmitAsset 1 2 3 4))
      Scenario.s_provider.
Proof.
  destruct (pause_unpause_roundtrip Scenario.s_provider
              (mkEnv Scenario.deployer 20) (mkEnv Scenario.deployer 30))
    as (_ & _ & Hsame).
  - vm_compute. reflexivity.
  - vm_compute. reflexivity.
  - vm_compute. reflexivity.
  - apply Hsame.
Defined.

(** The provider submitted at 100 with a cooldown of 60: a second submission
    at 159 is too early, one at 160 returns. *)
Lemma second_submission_cooldown_witness :
  outcome (submitAsset (mkEnv Scenario.provider 159) 5 6 7 8)
    Scenario.s_one_asset = Some CooldownActive /\
  outcome (submitAsset (mkEnv Scenario.provider 160) 5 6 7 8)
    Scenario.s_one_asset = None.
Proof.
  split.
  - rewrite (second_submission_cooldown Scenario.s_provider
               (mkEnv Scenario.provider 100) 1001 1002 1003 1004
               (mkEnv Scenario.provider 159) 5 6 7 8).
    + vm_compute. reflexivity.
    + vm_compute. reflexivity.
    + reflexivity.
  - rewrite (second_submission_cooldown Scenario.s_provider
               (mkEnv Scenario.provider 100) 1001 1002 1003 1004
               (mkEnv Scenario.provider 160) 5 6 7 8).
    + vm_compute. reflexivity.
    + vm_compute. reflexivity.
    + reflexivity.
Defined.

(** The requester never asked before; at time 59 the cooldown of 60 counted
    from zero has not elapsed. *)
Lemma first_call_waits_from_zero_witness :
  outcome (requestBatchSummaryDecryption (mkEnv Scenario.requester 59) 1)
    Scenario.s_one_asset = Some CooldownActive.
Proof.
  apply first_call_waits_from_zero.
  - vm_compute. reflexivity.
  - vm_compute. reflexivity.
  - vm_compute. discriminate.
  - vm_compute. reflexivity.
Defined.

Lemma counters_fit_uint256_witness :
  counters_in_range Scenario.s_requested /\
  1 <= currentBatchId Scenario.s_requested.
Proof. apply counters_fit_uint256, s_requested_reachable. Defined.

(** The owner closes batch 1 after the request: its aggregate and commitment
    are those the request saw. *)
Lemma aggregate_stable_witness :
  aggregate_loop
    (run [(mkEnv Scenario.deployer 350, CloseBatch 1)] Scenario.s_requested) 1
  = aggregate_loop Scenario.s_requested 1.
Proof.
  destruct (aggregate_stable Scenario.s_requested
              [(mkEnv Scenario.deployer 350, CloseBatch 1)] 1
              s_requested_reachable) as (_ & Hagg & _).
  - vm_compute. reflexivity.
  - exact Hagg.
Defined.

(** The request of the concrete deployment is answered with [(10, 3)] after
    the owner closed the batch. *)
Lemma myCallback_completes_witness :
  let s1 := run [(mkEnv Scenario.deployer 350, CloseBatch 1)]
                Scenario.s_requested in
  let s2 := execute (mkEnv 9 400)
              (MyCallback 0 Scenario.cleartexts_10_3 Scenario.valid_proof) s1 in
  outcome (myCallback (mkEnv 9 400) 0
             Scenario.cleartexts_10_3 Scenario.valid_proof) s1 = None /\
  processed (context_of s2 0) = true /\
  events s2 = events s1 ++ [DecryptionCompleted 0 1 10 3].
Proof.
  apply (myCallback_completes Scenario.s_one_asset
           (mkEnv Scenario.requester 200) 1
           [(mkEnv Scenario.deployer 350, CloseBatch 1)]).
  - apply s_one_asset_reachable.
  - vm_compute. reflexivity.
  - repeat constructor.
  - vm_compute. reflexivity.
  - vm_compute. reflexivity.
  - vm_compute. reflexivity.
Defined.

(** A later request leaves the context of request 0 in place. *)
Lemma context_lifecycle_witness :
  exists ctx',
    decryptionContexts
      (execute (mkEnv Scenario.requester 900) (RequestBatchSummaryDecryption 1)
         Scenario.s_requested) !! 0 = Some ctx' /\
    batchId ctx' = 1.
Proof.
  destruct (context_lifecycle Scenario.s_requested
              (mkEnv Scenario.requester 900) (RequestBatchSummaryDecryption 1) 0
              (mkDecryptionContext 1 (_hashCiphertexts [1001; 1003]) false)
              s_requested_reachable)
    as (ctx' & Hctx' & Hb & _).
  - vm_compute. reflexivity.
  - exists ctx'. split; [exact Hctx'|exact Hb].
Defined.

Lemma s_completed_reachable : reachable Scenario.s_completed.
Proof. unfold Scenario.s_completed. apply reachable_step, s_requested_reachable. Qed.

(** The completed event of request 0 sits beside a processed context for
    batch 1. *)
Lemma completed_events_are_sound_witness :
  processed (context_of Scenario.s_completed 0) = true /\
  batchId (context_of Scenario.s_completed 0) = 1 /\
  10 < 2 ^ 32 /\ 3 < 2 ^ 32.
Proof.
  apply (completed_events_are_sound _ s_completed_reachable 0 1 10 3).
  apply (list_elem_of_lookup_2 _ 5%nat). vm_compute. reflexivity.
Defined.

End FurtherRuns.
